(** * DiffSync: the Redis-backed record store and the Nautobot adapter

    A shallow embedding of [diffsync/store/redis.py] and of
    [examples/05-nautobot-peeringdb/adapter_nautobot.py].

    Python objects live in an explicit heap, so that aliasing and in-place
    mutation ([obj.diffsync = ...], [copy.copy]) are visible; the Redis
    service is a finite map from keys to byte strings; exceptions are an
    explicit outcome of every operation and the state reached when an
    exception is raised is kept. Exception messages are not modelled. *)

From Stdlib Require Import ZArith Lia Ascii.
From stdpp Require Import base strings gmap list pretty.

(** ** Python values, exceptions, outcomes *)

(** The values a record field holds in the modelled schemas: [None], a
    string, an integer, or a list of strings (a child-identifier list such
    as [countries: List[str]]). *)
Inductive pyval :=
  | PNone
  | PStr (s : string)
  | PInt (z : Z)
  | PList (l : list string).

#[global] Instance pyval_eq_dec : EqDecision pyval.
Proof. solve_decision. Defined.

#[global] Instance pyval_inhabited : Inhabited pyval := populate PNone.

(** Python truthiness ([if v:]). *)
Definition truthy (v : pyval) : bool :=
  match v with
  | PNone => false
  | PStr s => negb (String.eqb s "")
  | PInt z => negb (Z.eqb z 0)
  | PList l => match l with [] => false | _ => true end
  end.

Definition truthy_str (s : string) : bool := truthy (PStr s).

(** Exception classes that the modelled code raises or lets through.
    Messages are not modelled. *)
Inductive exn :=
  | ValueError
  | TypeError
  | AttributeError
  | KeyError (k : string)
  | ObjectNotFound
  | ObjectAlreadyExists
  | HTTPError (status : Z)
  | EOFError
  | UnpicklingError.

#[global] Instance exn_eq_dec : EqDecision exn.
Proof. solve_decision. Defined.

(** The outcome of running a piece of Python: a value, a raised exception,
    or [Undefined] when the model itself gives up (recursion fuel
    exhausted, or a reference that denotes no object). *)
Inductive outcome (A : Type) :=
  | Ok (a : A)
  | Raise (e : exn)
  | Undefined.
Arguments Ok {A} a.
Arguments Raise {A} e.
Arguments Undefined {A}.

(** State and exceptions: the state survives a raised exception. *)
Definition M (S A : Type) : Type := S → outcome A * S.

Definition ret {S A} (a : A) : M S A := λ st, (Ok a, st).
Definition raise {S A} (e : exn) : M S A := λ st, (Raise e, st).
Definition undefined {S A} : M S A := λ st, (Undefined, st).
Definition bind {S A B} (c : M S A) (k : A → M S B) : M S B :=
  λ st, match c st with
        | (Ok a, st') => k a st'
        | (Raise e, st') => (Raise e, st')
        | (Undefined, st') => (Undefined, st')
        end.
Definition gets {S A} (f : S → A) : M S A := λ st, (Ok (f st), st).
Definition modify {S} (f : S → S) : M S unit := λ st, (Ok tt, f st).

Notation "'let*' x ':=' c 'in' k" := (bind c (λ x, k))
  (at level 10, x pattern, c at level 100, k at level 200).
Notation "c1 ';;' c2" := (bind c1 (λ _, c2))
  (at level 100, c2 at level 200, right associativity).

(** [try: c except E: handler] for the exceptions selected by [catches]. *)
Definition try_except {S A} (c : M S A) (catches : exn → bool) (handler : M S A)
  : M S A :=
  λ st, match c st with
        | (Raise e, st') => if catches e then handler st' else (Raise e, st')
        | r => r
        end.

(** [for x in xs: body x] *)
Fixpoint for_ {S A} (xs : list A) (body : A → M S unit) : M S unit :=
  match xs with
  | [] => ret tt
  | x :: xs' => body x ;; for_ xs' body
  end.

(** A computation every run of which moves the state along [R]. *)
Definition steps {S A} (R : relation S) (c : M S A) : Prop :=
  ∀ st, R st (c st).2.

(** ** Records (DiffSyncModel instances) *)

(** The class-level declarations of a record type. [_children] is a dict
    from child type name to the field that holds the child ids; it is kept
    as an association list because it is iterated in order. *)
Record ModelClass := {
  _modelname : string;
  _identifiers : list string;
  _attributes : list string;
  _children : list (string * string)
}.

#[global] Instance ModelClass_eq_dec : EqDecision ModelClass.
Proof. solve_decision. Defined.

(** An adapter (a DiffSync instance), seen from a record only as a
    back-reference. Its truth value is decided by the adapter class. *)
Record Adapter := {
  adapter_name : string;
  adapter_truthy : bool
}.

#[global] Instance Adapter_eq_dec : EqDecision Adapter.
Proof. solve_decision. Defined.

(** The values the code stores in [obj.diffsync]. *)
Inductive backref :=
  | BNone
  | BFalse
  | BAdapter (a : Adapter).

#[global] Instance backref_eq_dec : EqDecision backref.
Proof. solve_decision. Defined.

Definition backref_truthy (b : backref) : bool :=
  match b with
  | BNone | BFalse => false
  | BAdapter a => adapter_truthy a
  end.

Record PyObject := {
  cls : ModelClass;
  fields : gmap string pyval;
  diffsync : backref
}.

#[global] Instance PyObject_eq_dec : EqDecision PyObject.
Proof. solve_decision. Defined.

Definition set_diffsync (b : backref) (o : PyObject) : PyObject :=
  {| cls := cls o; fields := fields o; diffsync := b |}.

(** What Python itself provides: [str()] on a field value, and the pickle
    serializer. Pickle is only known through the law that unpickling a
    pickled record gives the record back; [loads] on other bytes returns a
    record or raises. *)
Class PyRuntime := {
  py_str : pyval → string;
  dumps : PyObject → string;
  loads : string → exn + PyObject;
  loads_dumps : ∀ o, loads (dumps o) = inr o
}.

(** [DiffSyncModel.get_type] *)
Definition get_type (c : ModelClass) : string := _modelname c.

(** The separator the framework puts between identifier values. *)
Definition unique_id_glue : string := "__".

Fixpoint join (sep : string) (l : list string) : string :=
  match l with
  | [] => ""
  | [x] => x
  | x :: l' => x +:+ sep +:+ join sep l'
  end.

Section Framework.
Context `{PyRuntime}.

(** [DiffSyncModel.create_unique_id], called with the identifier fields as
    keyword arguments: the identifier values, in declaration order, joined
    by the glue; a declared identifier absent from the keyword arguments is
    a [KeyError]. *)
Fixpoint identifier_values (keys : list string) (kw : gmap string pyval)
  : exn + list string :=
  match keys with
  | [] => inr []
  | k :: keys' =>
    match kw !! k with
    | None => inl (KeyError k)
    | Some v =>
      match identifier_values keys' kw with
      | inl e => inl e
      | inr vs => inr (py_str v :: vs)
      end
    end
  end.

Definition create_unique_id (c : ModelClass) (kw : gmap string pyval)
  : exn + string :=
  match identifier_values (_identifiers c) kw with
  | inl e => inl e
  | inr vs => inr (join unique_id_glue vs)
  end.

(** [DiffSyncModel.get_unique_id]: every declared identifier is a field of
    the instance, so this is total. *)
Definition get_unique_id (o : PyObject) : string :=
  join unique_id_glue (map (λ k, py_str (fields o !!! k)) (_identifiers (cls o))).

End Framework.

(** ** The backing key-value service *)

(** Glob-style key patterns of the service's SCAN ... MATCH: [*] any run of
    characters, [?] any one character, [[...]] a character class (with [^]
    negation, [a-z] ranges and backslash escapes), backslash a literal next
    character. [class_scan] reads a class up to its closing bracket (or to
    the end of the pattern) and returns whether the character is in it,
    with the rest of the pattern. *)
Fixpoint class_scan (p : string) (c : ascii) (hit : bool) : bool * string :=
  match p with
  | "" => (hit, "")
  | String x p1 =>
    if Ascii.eqb x "\" then
      match p1 with
      | String y p2 => class_scan p2 c (hit || Ascii.eqb y c)
      | "" => (hit || Ascii.eqb x c, "")
      end
    else if Ascii.eqb x "]" then (hit, p1)
    else
      match p1 with
      | String d (String hi p3) =>
        if Ascii.eqb d "-" then
          let a := N.min (N_of_ascii x) (N_of_ascii hi) in
          let b := N.max (N_of_ascii x) (N_of_ascii hi) in
          class_scan p3 c (hit || (N.leb a (N_of_ascii c) && N.leb (N_of_ascii c) b))
        else class_scan p1 c (hit || Ascii.eqb x c)
      | _ => class_scan p1 c (hit || Ascii.eqb x c)
      end
  end.

(** The fuel bounds the number of steps; [glob] gives enough of it. *)
Fixpoint stringmatch (fuel : nat) (p s : string) : bool :=
  match fuel with
  | 0 => false
  | S n =>
    match p with
    | "" => match s with "" => true | _ => false end
    | String pc p' =>
      if Ascii.eqb pc "*" then
        stringmatch n p' s
        || match s with "" => false | String _ s' => stringmatch n p s' end
      else
        match s with
        | "" => false
        | String c s' =>
          if Ascii.eqb pc "?" then stringmatch n p' s'
          else if Ascii.eqb pc "[" then
            let '(neg, q) :=
              match p' with
              | String x q => if Ascii.eqb x "^" then (true, q) else (false, p')
              | "" => (false, p')
              end in
            let '(hit, rest) := class_scan q c false in
            xorb neg hit && stringmatch n rest s'
          else if Ascii.eqb pc "\" then
            match p' with
            | String x p'' => Ascii.eqb x c && stringmatch n p'' s'
            | "" => Ascii.eqb pc c && stringmatch n "" s'
            end
          else Ascii.eqb pc c && stringmatch n p' s'
        end
    end
  end.

Definition glob (p s : string) : bool :=
  stringmatch (S (String.length p + String.length s)) p s.

(** The characters a glob pattern gives a meaning to. *)
Definition glob_special (c : ascii) : bool :=
  Ascii.eqb c "*" || Ascii.eqb c "?" || Ascii.eqb c "[" || Ascii.eqb c "\".

Fixpoint has_char (P : ascii → bool) (s : string) : bool :=
  match s with
  | "" => false
  | String c s' => P c || has_char P s'
  end.

(** A store id that is a plain token: not empty, without the separator
    [:] and without pattern characters. *)
Definition plain_id (a : string) : bool :=
  truthy_str a
  && negb (has_char (λ c, glob_special c || Ascii.eqb c ":") a).

(** GET, SET (unconditional overwrite), EXISTS, DEL and SCAN on the
    service's key space. SCAN enumerates the matching keys in the map's
    own order; the service promises no particular order. *)
Definition redis_get (k : string) (db : gmap string string) : option string :=
  db !! k.
Definition redis_set (k v : string) (db : gmap string string) : gmap string string :=
  <[k := v]> db.
Definition redis_exists (k : string) (db : gmap string string) : bool :=
  bool_decide (is_Some (db !! k)).
Definition redis_delete (k : string) (db : gmap string string) : gmap string string :=
  delete k db.
Definition scan_iter (pat : string) (db : gmap string string) : list string :=
  (map_to_list (filter (λ kv : string * string, glob pat kv.1 = true) db)).*1.

(** ** The process state seen by the store: the object heap and the service *)

Record World := {
  heap : gmap nat PyObject;
  redis : gmap string string
}.

Definition set_heap (f : gmap nat PyObject → gmap nat PyObject) (w : World) : World :=
  {| heap := f (heap w); redis := redis w |}.
Definition set_redis (f : gmap string string → gmap string string) (w : World) : World :=
  {| heap := heap w; redis := f (redis w) |}.

(** A new object, at an address no object has yet. *)
Definition alloc (o : PyObject) : M World nat :=
  λ w, let l := fresh (dom (heap w)) in (Ok l, set_heap (insert l o) w).

Definition deref (l : nat) : M World PyObject :=
  λ w, match heap w !! l with
       | Some o => (Ok o, w)
       | None => (Undefined, w)
       end.

(** [obj.diffsync = b] *)
Definition setattr_diffsync (l : nat) (b : backref) : M World unit :=
  let* o := deref l in modify (set_heap (insert l (set_diffsync b o))).

(** [copy.copy(obj)] of a record. The record base class pickles and copies
    through its own state hooks, which hand the attribute dictionary of
    [obj] itself (not a copy of it) to the new object: the copy is a new
    object that shares every attribute, [diffsync] included, with [obj], so
    that an assignment to an attribute of the one is seen through the
    other. The store never looks at the identity of an object; the copy is
    therefore a second name for the same attributes, the same location. *)
Definition copy_copy (l : nat) : M World nat :=
  let* _ := deref l in ret l.

Definition of_sum {S A} (r : exn + A) : M S A :=
  match r with
  | inl e => raise e
  | inr a => ret a
  end.

(** [for x in xs: results.append(body x)] *)
Fixpoint collect {S A B} (xs : list A) (body : A → M S B) : M S (list B) :=
  match xs with
  | [] => ret []
  | x :: xs' =>
    let* y := body x in
    let* ys := collect xs' body in
    ret (y :: ys)
  end.

(** [getattr(obj, fieldname)] on a data field, and iteration over its value
    ([for child_id in ...]): a list gives its elements, a string its
    characters, [None] and integers are not iterable. *)
Definition getattr (o : PyObject) (f : string) : exn + pyval :=
  match fields o !! f with
  | Some v => inr v
  | None => inl AttributeError
  end.

Fixpoint characters (s : string) : list string :=
  match s with
  | "" => []
  | String c s' => String c "" :: characters s'
  end.

Definition iterate (v : pyval) : exn + list string :=
  match v with
  | PList l => inr l
  | PStr s => inr (characters s)
  | PNone | PInt _ => inl TypeError
  end.

(** ** RedisStore *)

(** What [getattr(self, name)] can find on a store: a record class, or some
    other object of which only the truth value matters (it has no
    [create_unique_id]). *)
Inductive pyattr :=
  | AClass (c : ModelClass)
  | AOther (truth : bool).

(** A store instance. [self_diffsync] is the adapter the store belongs to
    ([self.diffsync], possibly [None]); [inherited] stands for attributes
    that come from the base store class and from [object]. *)
Record RedisStore := {
  name : string;
  self_diffsync : backref;
  _store_id : string;
  inherited : string → option pyattr
}.

(** [__init__]: [uuid4] is the text of the random UUID drawn when no
    store id is supplied. *)
Definition RedisStore_init (name : string) (store_id : option string)
    (uuid4 : string) (diffsync : backref) (inherited : string → option pyattr)
  : RedisStore :=
  {| name := name;
     self_diffsync := diffsync;
     _store_id :=
       match store_id with
       | Some s => if truthy (PStr s) then s else String.substring 0 8 uuid4
       | None => String.substring 0 8 uuid4
       end;
     inherited := inherited |}.

(** [__str__] *)
Definition __str__ (s : RedisStore) : string :=
  name s +:+ "(" +:+ _store_id s +:+ ")".

Definition _store_label (s : RedisStore) : string :=
  "diffsync:" +:+ _store_id s.

Definition _get_key_for_object (s : RedisStore) (modelname uid : string) : string :=
  _store_label s +:+ ":" +:+ modelname +:+ ":" +:+ uid.

(** The keys a store derives for records, and the keys under its label. *)
Definition own_key (s : RedisStore) (k : string) : Prop :=
  ∃ modelname uid, k = _get_key_for_object s modelname uid.

Definition under_label (s : RedisStore) (k : string) : Prop :=
  ∃ rest, k = _store_label s +:+ ":" +:+ rest.

(** The methods the class defines; bound methods are truthy. *)
Definition store_methods : list string :=
  ["__init__"; "__str__"; "_get_key_for_object"; "get"; "get_all";
   "get_by_uids"; "add"; "update"; "remove"; "count"].

(** [getattr(self, n)] when [hasattr(self, n)], else [None]. *)
Definition store_getattr (s : RedisStore) (n : string) : option pyattr :=
  if bool_decide (n ∈ store_methods) then Some (AOther true)
  else if bool_decide (n = "_store") then Some (AOther true)
  else if bool_decide (n = "_store_id") then Some (AOther (truthy (PStr (_store_id s))))
  else if bool_decide (n = "_store_label") then Some (AOther true)
  else if bool_decide (n = "diffsync") then Some (AOther (backref_truthy (self_diffsync s)))
  else if bool_decide (n = "name") then Some (AOther (truthy (PStr (name s))))
  else inherited s n.

(** The type argument of the lookups: a model name, or a record class or
    instance (of which only the class is used). *)
Inductive typeref :=
  | TName (n : string)
  | TModel (c : ModelClass).

(** The identifier argument of [get]: a unique id, or a mapping of
    identifier fields. *)
Inductive identifier :=
  | IdStr (uid : string)
  | IdMapping (kw : gmap string pyval).

Definition typeref_modelname (obj : typeref) : string :=
  match obj with
  | TName n => n
  | TModel c => get_type c
  end.

Definition is_TypeError (e : exn) : bool := bool_decide (e = TypeError).
Definition is_ObjectNotFound (e : exn) : bool := bool_decide (e = ObjectNotFound).

Section Store.
Context `{PyRuntime}.

(** [loads(v)] on what the service returned for a key: the client returns
    [None] for an absent key, and [loads(None)] is a [TypeError]. *)
Definition py_loads (v : option string) : M World PyObject :=
  match v with
  | None => raise TypeError
  | Some b => of_sum (loads b)
  end.

(** The body shared by the three lookups:
    [try: obj = loads(v); obj.diffsync = self.diffsync
     except TypeError: raise ObjectNotFound]. *)
Definition load_object (s : RedisStore) (v : option string) : M World nat :=
  try_except
    (let* o := py_loads v in
     let* l := alloc o in
     setattr_diffsync l (self_diffsync s) ;;
     ret l)
    is_TypeError
    (raise ObjectNotFound).

Definition get (s : RedisStore) (obj : typeref) (identifier : identifier)
  : M World nat :=
  let '(modelname, object_class) :=
    match obj with
    | TName n => (n, store_getattr s n)
    | TModel c => (get_type c, Some (AClass c))
    end in
  let* uid :=
    match identifier with
    | IdStr uid => ret uid
    | IdMapping kw =>
      match object_class with
      | Some (AClass c) => of_sum (create_unique_id c kw)
      | Some (AOther true) => raise AttributeError
      | Some (AOther false) | None => raise ValueError
      end
    end in
  let* v := gets (λ w, redis_get (_get_key_for_object s modelname uid) (redis w)) in
  load_object s v.

Definition get_all (s : RedisStore) (obj : typeref) : M World (list nat) :=
  let modelname := typeref_modelname obj in
  let* keys :=
    gets (λ w, scan_iter (_store_label s +:+ ":" +:+ modelname +:+ ":*") (redis w)) in
  collect keys (λ key,
    let* v := gets (λ w, redis_get key (redis w)) in
    load_object s v).

Definition get_by_uids (s : RedisStore) (uids : list string) (obj : typeref)
  : M World (list nat) :=
  let modelname := typeref_modelname obj in
  collect uids (λ uid,
    let* v := gets (λ w, redis_get (_get_key_for_object s modelname uid) (redis w)) in
    load_object s v).

Definition add (s : RedisStore) (obj : nat) : M World unit :=
  let* o := deref obj in
  let modelname := get_type (cls o) in
  let uid := get_unique_id o in
  let object_key := _get_key_for_object s modelname uid in
  let* obj_copy := copy_copy obj in
  setattr_diffsync obj_copy BFalse ;;
  let* c := deref obj_copy in
  modify (set_redis (redis_set object_key (dumps c))).

Definition update (s : RedisStore) (obj : nat) : M World unit :=
  let* o := deref obj in
  let modelname := get_type (cls o) in
  let uid := get_unique_id o in
  let object_key := _get_key_for_object s modelname uid in
  let* obj_copy := copy_copy obj in
  setattr_diffsync obj_copy BFalse ;;
  let* c := deref obj_copy in
  modify (set_redis (redis_set object_key (dumps c))).

(** [remove]; the fuel bounds the depth of the recursion into children. *)
Fixpoint remove (fuel : nat) (s : RedisStore) (obj : nat) (remove_children : bool)
  : M World unit :=
  match fuel with
  | 0 => undefined
  | S fuel' =>
    let* o := deref obj in
    let modelname := get_type (cls o) in
    let uid := get_unique_id o in
    let object_key := _get_key_for_object s modelname uid in
    let* present := gets (λ w, redis_exists object_key (redis w)) in
    if negb present then raise ObjectNotFound
    else
      (if backref_truthy (diffsync o) then setattr_diffsync obj BNone else ret tt) ;;
      modify (set_redis (redis_delete object_key)) ;;
      if remove_children then
        for_ (_children (cls o)) (λ '(child_type, child_fieldname),
          let* o' := deref obj in
          let* v := of_sum (getattr o' child_fieldname) in
          let* child_ids := of_sum (iterate v) in
          for_ child_ids (λ child_id,
            try_except
              (let* child_obj := get s (TName child_type) (IdStr child_id) in
               remove fuel' s child_obj remove_children)
              is_ObjectNotFound
              (ret tt)))
      else ret tt
  end.

Definition count (s : RedisStore) (modelname : option string) : M World nat :=
  let search_pattern :=
    match modelname with
    | Some m =>
      if truthy (PStr m) then _store_label s +:+ ":" +:+ m +:+ ":*"
      else _store_label s +:+ ":*"
    | None => _store_label s +:+ ":*"
    end in
  gets (λ w, length (scan_iter search_pattern (redis w))).

(** The object a lookup returned, read back from the heap it left. *)
Definition returned_object (r : outcome nat * World) : outcome PyObject :=
  match r with
  | (Ok l, w) => match heap w !! l with Some o => Ok o | None => Undefined end
  | (Raise e, _) => Raise e
  | (Undefined, _) => Undefined
  end.

Definition returned_objects (r : outcome (list nat) * World) : outcome (list PyObject) :=
  match r with
  | (Ok ls, w) =>
    match mapM (λ l, heap w !! l) ls with Some os => Ok os | None => Undefined end
  | (Raise e, _) => Raise e
  | (Undefined, _) => Undefined
  end.

(** What a lookup returns for the bytes found at a key, as a value. *)
Definition fetch (s : RedisStore) (v : option string) : outcome PyObject :=
  match v with
  | None => Raise ObjectNotFound
  | Some b =>
    match loads b with
    | inl e => Raise (if is_TypeError e then ObjectNotFound else e)
    | inr o => Ok (set_diffsync (self_diffsync s) o)
    end
  end.

Fixpoint fetch_all (s : RedisStore) (vs : list (option string))
  : outcome (list PyObject) :=
  match vs with
  | [] => Ok []
  | v :: vs' =>
    match fetch s v with
    | Ok o =>
      match fetch_all s vs' with
      | Ok os => Ok (o :: os)
      | Raise e => Raise e
      | Undefined => Undefined
      end
    | Raise e => Raise e
    | Undefined => Undefined
    end
  end.

(** The key under which a store holds a record. *)
Definition object_key (s : RedisStore) (o : PyObject) : string :=
  _get_key_for_object s (get_type (cls o)) (get_unique_id o).

(** The keys of the child ids listed in a record's declared
    child-relationship fields. *)
Definition child_keys (s : RedisStore) (o : PyObject) (k : string) : Prop :=
  ∃ child_type child_fieldname v child_ids child_id,
    (child_type, child_fieldname) ∈ _children (cls o)
    ∧ fields o !! child_fieldname = Some v
    ∧ iterate v = inr child_ids
    ∧ child_id ∈ child_ids
    ∧ k = _get_key_for_object s child_type child_id.




(** The children of every entry that went away between two states of the
    service went away too. *)
Definition closed (s : RedisStore) (db1 db2 : gmap string string) : Prop :=
  ∀ k v o, db1 !! k = Some v → db2 !! k = None → loads v = inr o →
    ∀ k', child_keys s o k' → db2 !! k' = None.

(** Objects keep their class and fields. *)
Definition same_fields : relation World :=
  λ w w', ∀ l o, heap w !! l = Some o →
    ∃ o', heap w' !! l = Some o' ∧ cls o' = cls o ∧ fields o' = fields o.

(** Entries only go away, and objects keep their class and fields. *)
Definition settles : relation World :=
  λ w w', redis w' ⊆ redis w ∧ same_fields w w'.


(** What a cascading remove does to the process state. *)
Definition cascades (s : RedisStore) : relation World :=
  λ w w', redis w' ⊆ redis w
          ∧ same_fields w w'
          ∧ closed s (redis w) (redis w').



(** The key [get] reads, or the exception it raises before reading. *)
Definition lookup_key (s : RedisStore) (obj : typeref) (identifier : identifier)
  : exn + string :=
  match identifier with
  | IdStr uid => inr (_get_key_for_object s (typeref_modelname obj) uid)
  | IdMapping kw =>
    match obj with
    | TModel c =>
      match create_unique_id c kw with
      | inl e => inl e
      | inr uid => inr (_get_key_for_object s (get_type c) uid)
      end
    | TName n =>
      match store_getattr s n with
      | Some (AClass c) =>
        match create_unique_id c kw with
        | inl e => inl e
        | inr uid => inr (_get_key_for_object s n uid)
        end
      | Some (AOther true) => inl AttributeError
      | Some (AOther false) | None => inl ValueError
      end
    end
  end.

(** The service is the same outside the keys a store derives. *)
Definition frame_outside (s : RedisStore) : relation World :=
  λ w w', ∀ k, ¬ own_key s k → redis w' !! k = redis w !! k.

(** Two services hold the same under a store's label. *)
Definition agree_under (s : RedisStore) (db' db : gmap string string) : Prop :=
  ∀ k, under_label s k → db' !! k = db !! k.

(** The writes of a store, and a caller that performs a sequence of them,
    going on after an exception. *)
Inductive store_op :=
  | OpAdd (obj : nat)
  | OpUpdate (obj : nat)
  | OpRemove (obj : nat) (remove_children : bool).

Definition run_op (fuel : nat) (s : RedisStore) (op : store_op) : M World unit :=
  match op with
  | OpAdd obj => add s obj
  | OpUpdate obj => update s obj
  | OpRemove obj remove_children => remove fuel s obj remove_children
  end.

Definition run_ops (fuel : nat) (s : RedisStore) (ops : list store_op) : M World unit :=
  for_ ops (λ op, try_except (run_op fuel s op) (λ _, true) (ret tt)).

(** How a failed read of one key is reported by the lookups: an absent
    key as NotFound; a value the unpickler rejects as NotFound when the
    unpickler's error is a [TypeError], and as the unpickler's own error
    otherwise. [None] when the value unpickles. *)
Definition lookup_error (v : option string) : option exn :=
  match v with
  | None => Some ObjectNotFound
  | Some b =>
    match loads b with
    | inl e => Some (if is_TypeError e then ObjectNotFound else e)
    | inr _ => None
    end
  end.

End Store.

(** ** The Nautobot adapter *)

(** A JSON request body holds field values and, for a site's region, a
    nested object. *)
Inductive json :=
  | JVal (v : pyval)
  | JObj (d : gmap string pyval).

Inductive http_method := POST | PATCH | DELETE.

Record Request := {
  method : http_method;
  target : string;
  req_headers : gmap string string;
  json_body : option (gmap string json)
}.

(** What the adapter side does, in order: HTTP requests sent, and calls
    that reached the base record class. *)
Inductive Event :=
  | Sent (r : Request)
  | BaseCreate (c : ModelClass) (ids attrs : gmap string pyval)
  | BaseUpdate (self : nat) (attrs : gmap string pyval).

(** The adapter's process state: the objects, the local record graph (the
    adapter's own in-memory index from type name and unique id to record),
    the remote system (the status code it answers a request with) and the
    trace of events. *)
Record NWorld := {
  objects : gmap nat PyObject;
  graph : gmap (string * string) nat;
  remote : Request → Z;
  events : list Event
}.

Definition log_event (e : Event) (w : NWorld) : NWorld :=
  {| objects := objects w; graph := graph w; remote := remote w;
     events := events w ++ [e] |}.

Definition nderef (l : nat) : M NWorld PyObject :=
  λ w, match objects w !! l with
       | Some o => (Ok o, w)
       | None => (Undefined, w)
       end.

(** [d[k]] on a dict. *)
Definition item (d : gmap string pyval) (k : string) : exn + pyval :=
  match d !! k with
  | Some v => inr v
  | None => inl (KeyError k)
  end.

(** Modelled from the spec: the record classes of the Nautobot example
    (its [models] module is not part of the sources). Region has identifier
    [name] and attributes [slug], [description], [parent_name]; Site has
    identifier [name] and attributes [slug], [description], [status_slug],
    [region_name], [latitude], [longitude]; both carry the remote primary
    key in the field [pk]. *)
Definition RegionModel : ModelClass :=
  {| _modelname := "region";
     _identifiers := ["name"];
     _attributes := ["slug"; "description"; "parent_name"];
     _children := [] |}.

Definition SiteModel : ModelClass :=
  {| _modelname := "site";
     _identifiers := ["name"];
     _attributes := ["slug"; "description"; "status_slug"; "region_name";
                     "latitude"; "longitude"];
     _children := [] |}.

Section Base.
Context `{PyRuntime}.

(** Modelled from the spec: the base adapter's lookup [get(cls, identifier)]
    by unique id in the local record graph; an absent record is NotFound.
    An identifier that is neither a string nor a mapping cannot be unpacked
    into identifier fields. *)
Definition adapter_get (c : ModelClass) (identifier : pyval) : M NWorld nat :=
  match identifier with
  | PStr uid =>
    let* found := gets (λ w, graph w !! (get_type c, uid)) in
    match found with
    | Some l => ret l
    | None => raise ObjectNotFound
    end
  | _ => raise TypeError
  end.

(** Modelled from the spec: the base record-creation behaviour, which
    registers the new record locally: a record of the class with the given
    identifier and attribute values, owned by the adapter. *)
Definition base_create (c : ModelClass) (a : Adapter) (ids attrs : gmap string pyval)
  : M NWorld nat :=
  λ w,
    let o := {| cls := c; fields := ids ∪ attrs; diffsync := BAdapter a |} in
    let l := fresh (dom (objects w)) in
    (Ok l,
     {| objects := <[l := o]> (objects w);
        graph := <[(get_type c, get_unique_id o) := l]> (graph w);
        remote := remote w;
        events := events w ++ [BaseCreate c ids attrs] |}).

(** Modelled from the spec: the base update behaviour, which stores the
    updated attribute values on the record. *)
Definition base_update (self : nat) (attrs : gmap string pyval) : M NWorld nat :=
  let* o := nderef self in
  λ w,
    (Ok self,
     {| objects := <[self := {| cls := cls o; fields := attrs ∪ fields o;
                                diffsync := diffsync o |}]> (objects w);
        graph := graph w;
        remote := remote w;
        events := events w ++ [BaseUpdate self attrs] |}).

End Base.

Module NautobotRemote.

(** The adapter instance: its URL and token, and the back-reference value
    under which records know it. *)
Record t := {
  url : string;
  token : string;
  adapter : Adapter
}.

Definition region : ModelClass := RegionModel.
Definition site : ModelClass := SiteModel.
Definition top_level : list string := ["region"; "site"].

Definition headers (self : t) : gmap string string :=
  <["Authorization" := "Token " +:+ token self]>
    (<["Accept" := "application/json"]> ∅).

(** [__init__]: both the URL and the token must be given. *)
Definition init (url token : string) (a : Adapter) : exn + t :=
  if negb (truthy (PStr url)) || negb (truthy (PStr token)) then inl ValueError
  else inr {| url := url; token := token; adapter := a |}.

(** [requests.<method>(...)]: the request reaches the remote system, which
    answers with a status code. *)
Definition send (r : Request) : M NWorld Z :=
  λ w, (Ok (remote w r), log_event (Sent r) w).

(** [response.raise_for_status()]: a client-error or server-error status
    (4xx, 5xx) raises; any other status returns. *)
Definition http_error (status : Z) : bool :=
  (400 <=? status)%Z && (status <? 600)%Z.

Definition raise_for_status (status : Z) : M NWorld unit :=
  if http_error status then raise (HTTPError status) else ret tt.

Definition post (self : t) (path : string) (data : gmap string json) : M NWorld Z :=
  let* response :=
    send {| method := POST; target := url self +:+ path;
            req_headers := headers self; json_body := Some data |} in
  raise_for_status response ;;
  ret response.

Definition patch (self : t) (path : string) (data : gmap string json) : M NWorld Z :=
  let* response :=
    send {| method := PATCH; target := url self +:+ path;
            req_headers := headers self; json_body := Some data |} in
  raise_for_status response ;;
  ret response.

Definition delete (self : t) (path : string) : M NWorld Z :=
  let* response :=
    send {| method := DELETE; target := url self +:+ path;
            req_headers := headers self; json_body := None |} in
  raise_for_status response ;;
  ret response.

End NautobotRemote.

(** [self.diffsync] of a record, used as the adapter: a record that is not
    attached to an adapter has nothing to call. The adapter a record of the
    graph is attached to is the adapter [d] that loaded or created it. *)
Definition owner (d : NautobotRemote.t) (o : PyObject) : M NWorld NautobotRemote.t :=
  match diffsync o with
  | BAdapter _ => ret d
  | BNone | BFalse => raise AttributeError
  end.

Module RegionNautobotModel.
Section Methods.
Context `{PyRuntime}.

Definition create (diffsync : NautobotRemote.t) (ids attrs : gmap string pyval)
  : M NWorld nat :=
  let* name := of_sum (item ids "name") in
  let* slug := of_sum (item attrs "slug") in
  let data : gmap string json := <["slug" := JVal slug]> (<["name" := JVal name]> ∅) in
  let* description := of_sum (item attrs "description") in
  let* data :=
    if truthy description then
      let* description := of_sum (item attrs "description") in
      ret (<["description" := JVal description]> data)
    else ret data in
  let* parent_name := of_sum (item attrs "parent_name") in
  let* data :=
    if truthy parent_name then
      let* parent_name := of_sum (item attrs "parent_name") in
      let* parent := adapter_get NautobotRemote.region parent_name in
      let* p := nderef parent in
      let* pk := of_sum (getattr p "pk") in
      ret (<["parent" := JVal (PStr (py_str pk))]> data)
    else ret data in
  NautobotRemote.post diffsync "/api/dcim/regions/" data ;;
  base_create RegionModel (NautobotRemote.adapter diffsync) ids attrs.

Definition update (d : NautobotRemote.t) (self : nat) (attrs : gmap string pyval)
  : M NWorld nat :=
  let data : gmap string json := ∅ in
  let* data :=
    if bool_decide (is_Some (attrs !! "slug")) then
      let* slug := of_sum (item attrs "slug") in
      ret (<["slug" := JVal slug]> data)
    else ret data in
  let* data :=
    if bool_decide (is_Some (attrs !! "description")) then
      let* description := of_sum (item attrs "description") in
      ret (<["description" := JVal description]> data)
    else ret data in
  let* data :=
    if bool_decide (is_Some (attrs !! "parent_name")) then
      let* parent_name := of_sum (item attrs "parent_name") in
      if truthy parent_name then
        let* o := nderef self in
        let* diffsync := owner d o in
        let* parent_name := of_sum (item attrs "parent_name") in
        let* parent := adapter_get NautobotRemote.region parent_name in
        let* p := nderef parent in
        let* pk := of_sum (getattr p "pk") in
        ret (<["parent" := JVal (PStr (py_str pk))]> data)
      else ret (<["parent" := JVal PNone]> data)
    else ret data in
  let* o := nderef self in
  let* diffsync := owner d o in
  let* pk := of_sum (getattr o "pk") in
  NautobotRemote.patch diffsync ("/api/dcim/regions/" +:+ py_str pk +:+ "/") data ;;
  base_update self attrs.

End Methods.
End RegionNautobotModel.

Module SiteNautobotModel.
Section Methods.
Context `{PyRuntime}.

Definition create (diffsync : NautobotRemote.t) (ids attrs : gmap string pyval)
  : M NWorld nat :=
  let* name := of_sum (item ids "name") in
  let* slug := of_sum (item attrs "slug") in
  let* description := of_sum (item attrs "description") in
  let* status := of_sum (item attrs "status_slug") in
  let* region_name := of_sum (item attrs "region_name") in
  let* region :=
    if truthy region_name then
      let* region_name := of_sum (item attrs "region_name") in
      ret (JObj (<["name" := region_name]> ∅))
    else ret (JVal PNone) in
  let* latitude := of_sum (item attrs "latitude") in
  let* longitude := of_sum (item attrs "longitude") in
  NautobotRemote.post diffsync "/api/dcim/sites/"
    (<["longitude" := JVal longitude]>
       (<["latitude" := JVal latitude]>
          (<["region" := region]>
             (<["status" := JVal status]>
                (<["description" := JVal description]>
                   (<["slug" := JVal slug]> (<["name" := JVal name]> ∅))))))) ;;
  base_create SiteModel (NautobotRemote.adapter diffsync) ids attrs.

Definition update (d : NautobotRemote.t) (self : nat) (attrs : gmap string pyval)
  : M NWorld nat :=
  let data : gmap string json := ∅ in
  let* data :=
    if bool_decide (is_Some (attrs !! "slug")) then
      let* slug := of_sum (item attrs "slug") in
      ret (<["slug" := JVal slug]> data)
    else ret data in
  let* data :=
    if bool_decide (is_Some (attrs !! "description")) then
      let* description := of_sum (item attrs "description") in
      ret (<["description" := JVal description]> data)
    else ret data in
  let* data :=
    if bool_decide (is_Some (attrs !! "status_slug")) then
      let* status := of_sum (item attrs "status_slug") in
      ret (<["status" := JVal status]> data)
    else ret data in
  let* data :=
    if bool_decide (is_Some (attrs !! "region_name")) then
      let* region_name := of_sum (item attrs "region_name") in
      if truthy region_name then
        let* region_name := of_sum (item attrs "region_name") in
        ret (<["region" := JObj (<["name" := region_name]> ∅)]> data)
      else ret (<["region" := JVal PNone]> data)
    else ret data in
  let* data :=
    if bool_decide (is_Some (attrs !! "latitude")) then
      let* latitude := of_sum (item attrs "latitude") in
      ret (<["latitude" := JVal latitude]> data)
    else ret data in
  let* data :=
    if bool_decide (is_Some (attrs !! "longitude")) then
      let* longitude := of_sum (item attrs "longitude") in
      ret (<["longitude" := JVal longitude]> data)
    else ret data in
  let* o := nderef self in
  let* diffsync := owner d o in
  let* pk := of_sum (getattr o "pk") in
  NautobotRemote.patch diffsync ("/api/dcim/sites/" +:+ py_str pk +:+ "/") data ;;
  base_update self attrs.

End Methods.
End SiteNautobotModel.

(** The four remote writes of the adapter's record classes. *)
Inductive remote_write :=
  | RegionCreate (ids attrs : gmap string pyval)
  | RegionUpdate (self : nat) (attrs : gmap string pyval)
  | SiteCreate (ids attrs : gmap string pyval)
  | SiteUpdate (self : nat) (attrs : gmap string pyval).

Definition run_write `{PyRuntime} (d : NautobotRemote.t) (op : remote_write)
  : M NWorld nat :=
  match op with
  | RegionCreate ids attrs => RegionNautobotModel.create d ids attrs
  | RegionUpdate self attrs => RegionNautobotModel.update d self attrs
  | SiteCreate ids attrs => SiteNautobotModel.create d ids attrs
  | SiteUpdate self attrs => SiteNautobotModel.update d self attrs
  end.

(** A computation that only reads the adapter's state. *)
Definition readonly {A} (c : M NWorld A) : Prop := ∀ w, (c w).2 = w.

(** A computation that only adds to the trace. *)
Definition appends {A} (c : M NWorld A) : Prop :=
  ∀ w, ∃ evs, events (c w).2 = events w ++ evs.

(** A computation of which the first request, if it is answered with an
    error status, is the last thing that happens: the error is raised and
    the objects and the record graph are as before. *)
Definition clean_failure {A} (c : M NWorld A) : Prop :=
  ∀ w req rest,
    events (c w).2 = events w ++ Sent req :: rest →
    NautobotRemote.http_error (remote w req) = true →
    (c w).1 = Raise (HTTPError (remote w req))
    ∧ rest = []
    ∧ objects (c w).2 = objects w
    ∧ graph (c w).2 = graph w.

(** What a region PATCH body may hold, given the change set. *)
Definition region_body_ok (attrs : gmap string pyval) (data : gmap string json) : Prop :=
  data !! "slug" = JVal <$> attrs !! "slug"
  ∧ data !! "description" = JVal <$> attrs !! "description"
  ∧ (attrs !! "parent_name" = None → data !! "parent" = None)
  ∧ (∀ v, attrs !! "parent_name" = Some v → truthy v = false →
       data !! "parent" = Some (JVal PNone))
  ∧ (∀ k, k ≠ "slug" → k ≠ "description" → k ≠ "parent" → data !! k = None).

(** ** The example schema of [examples/example3/models.py] *)

Module Example3.

Definition Region : ModelClass :=
  {| _modelname := "region";
     _identifiers := ["slug"];
     _attributes := ["name"];
     _children := [("country", "countries")] |}.

Definition Country : ModelClass :=
  {| _modelname := "country";
     _identifiers := ["slug"];
     _attributes := ["name"; "region"; "subregion"];
     _children := [] |}.

End Example3.

(** ** A concrete runtime

    One runtime that satisfies the pickle law, used to evaluate the store
    on concrete inputs: a record is pickled to a protocol byte followed by
    the binary digits of its code; unpickling empty input is an [EOFError]
    and unpickling anything that is not a pickle an [UnpicklingError]. *)

Definition pyval_to_sum (v : pyval) : unit + string + Z + list string :=
  match v with
  | PNone => inl (inl (inl tt))
  | PStr s => inl (inl (inr s))
  | PInt z => inl (inr z)
  | PList l => inr l
  end.

Definition pyval_of_sum (x : unit + string + Z + list string) : pyval :=
  match x with
  | inl (inl (inl _)) => PNone
  | inl (inl (inr s)) => PStr s
  | inl (inr z) => PInt z
  | inr l => PList l
  end.

#[global] Instance pyval_countable : Countable pyval.
Proof.
  apply (inj_countable' pyval_to_sum pyval_of_sum). by intros [].
Defined.

#[global] Instance ModelClass_countable : Countable ModelClass.
Proof.
  apply (inj_countable'
    (λ c, (_modelname c, _identifiers c, _attributes c, _children c))
    (λ '(m, i, a, ch), {| _modelname := m; _identifiers := i;
                          _attributes := a; _children := ch |})).
  by intros [].
Defined.

#[global] Instance Adapter_countable : Countable Adapter.
Proof.
  apply (inj_countable'
    (λ a, (adapter_name a, adapter_truthy a))
    (λ '(n, b), {| adapter_name := n; adapter_truthy := b |})).
  by intros [].
Defined.

#[global] Instance backref_countable : Countable backref.
Proof.
  apply (inj_countable'
    (λ b, match b with BNone => None | BFalse => Some None | BAdapter a => Some (Some a) end)
    (λ x, match x with None => BNone | Some None => BFalse | Some (Some a) => BAdapter a end)).
  by intros [].
Defined.

#[global] Instance PyObject_countable : Countable PyObject.
Proof.
  apply (inj_countable'
    (λ o, (cls o, fields o, diffsync o))
    (λ '(c, f, d), {| cls := c; fields := f; diffsync := d |})).
  by intros [].
Defined.

Fixpoint pos_bits (p : positive) : string :=
  match p with
  | xH => ""
  | xO p' => String "0" (pos_bits p')
  | xI p' => String "1" (pos_bits p')
  end.

Fixpoint bits_pos (s : string) : option positive :=
  match s with
  | "" => Some xH
  | String "0" s' => xO <$> bits_pos s'
  | String "1" s' => xI <$> bits_pos s'
  | String _ _ => None
  end.

Definition bit_dumps (o : PyObject) : string :=
  String "P" (pos_bits (encode o)).

Definition bit_loads (b : string) : exn + PyObject :=
  match b with
  | "" => inl EOFError
  | String "P" bits =>
    match bits_pos bits ≫= decode with
    | Some o => inr o
    | None => inl UnpicklingError
    end
  | String _ _ => inl UnpicklingError
  end.

Definition quote (s : string) : string := "'" +:+ s +:+ "'".

Definition simple_str (v : pyval) : string :=
  match v with
  | PNone => "None"
  | PStr s => s
  | PInt z => pretty z
  | PList l => "[" +:+ join ", " (map quote l) +:+ "]"
  end.

Definition bit_runtime : PyRuntime.
Proof.
  refine {| py_str := simple_str; dumps := bit_dumps; loads := bit_loads;
            loads_dumps := _ |}.
  intros o. unfold bit_loads, bit_dumps.
  assert (∀ p, bits_pos (pos_bits p) = Some p) as Hbits.
  { induction p as [p IH|p IH|]; simpl; by rewrite ?IH. }
  rewrite Hbits. simpl. by rewrite decode_encode.
Defined.

(** ** Sample data, used to evaluate the model on concrete inputs *)

Module Sample.

Definition no_attrs : string → option pyattr := λ _, None.

Definition owner_adapter : Adapter :=
  {| adapter_name := "backend"; adapter_truthy := true |}.

Definition store_a : RedisStore :=
  RedisStore_init "RedisStore" (Some "abc123") "" (BAdapter owner_adapter) no_attrs.

(** A second store on the same service whose id extends the first one's
    across a separator, and a third with an unrelated id. *)
Definition store_b : RedisStore :=
  RedisStore_init "RedisStore" (Some "abc123:x") "" (BAdapter owner_adapter) no_attrs.

Definition store_c : RedisStore :=
  RedisStore_init "RedisStore" (Some "xyz789") "" (BAdapter owner_adapter) no_attrs.

Definition us : PyObject :=
  {| cls := Example3.Region;
     fields := <["slug" := PStr "us"]>
                 (<["name" := PStr "United States"]>
                    (<["countries" := PList ["usa"; "pri"]]> ∅));
     diffsync := BAdapter owner_adapter |}.

Definition usa : PyObject :=
  {| cls := Example3.Country;
     fields := <["slug" := PStr "usa"]>
                 (<["name" := PStr "United States of America"]>
                    (<["region" := PStr "us"]> (<["subregion" := PNone]> ∅)));
     diffsync := BAdapter owner_adapter |}.

(** A process holding the two records, and an empty service. *)
Definition w0 : World :=
  {| heap := <[1 := usa]> (<[0 := us]> ∅); redis := ∅ |}.

(** The adapter of the Nautobot example, one of its region records (with
    remote primary key 7), and a remote system that answers every request
    with the given status. *)
Definition nautobot : NautobotRemote.t :=
  {| NautobotRemote.url := "https://demo.nautobot.com";
     NautobotRemote.token := "aaaa";
     NautobotRemote.adapter := owner_adapter |}.

Definition emea : PyObject :=
  {| cls := RegionModel;
     fields := <["name" := PStr "EMEA"]>
                 (<["slug" := PStr "emea"]>
                    (<["description" := PNone]>
                       (<["parent_name" := PNone]> (<["pk" := PInt 7]> ∅))));
     diffsync := BAdapter owner_adapter |}.

Definition answering (status : Z) : NWorld :=
  {| objects := <[0 := emea]> ∅;
     graph := <[("region", "EMEA") := 0]> ∅;
     remote := λ _, status;
     events := [] |}.

Definition apac_ids : gmap string pyval := {[ "name" := PStr "APAC" ]}.
Definition apac_attrs : gmap string pyval :=
  <["slug" := PStr "apac"]>
    (<["description" := PNone]> (<["parent_name" := PNone]> ∅)).

(** A service in which the key of region [us] holds bytes that are not a
    pickle (here: no bytes at all). *)
Definition corrupt : World :=
  {| heap := ∅;
     redis := {[ _get_key_for_object store_a "region" "us" := "" ]} |}.

End Sample.

(** ** Further definitions *)

(** The heap after [remove] has looked at the record passed in: its
    back-reference is cleared when it was truthy. *)
Definition detach (obj : nat) (o : PyObject) (h : gmap nat PyObject)
  : gmap nat PyObject :=
  if backref_truthy (diffsync o) then <[obj := set_diffsync BNone o]> h else h.

(** One step of building a PATCH body: the attribute [src] of the change
    set, when present, goes into the body under the name [dst]. *)
Definition put_if (src dst : string) (f : pyval → json)
    (attrs : gmap string pyval) (data : gmap string json) : gmap string json :=
  match attrs !! src with
  | Some v => <[dst := f v]> data
  | None => data
  end.

(** How a site's region goes into a request body. *)
Definition region_ref (v : pyval) : json :=
  if truthy v then JObj (<["name" := v]> ∅) else JVal PNone.

(** What a site PATCH body holds, given the change set: the changed
    attributes under their remote names ([status_slug] as [status],
    [region_name] as [region], a nested object or null), and nothing else. *)
Definition site_body_ok (attrs : gmap string pyval) (data : gmap string json) : Prop :=
  data !! "slug" = JVal <$> attrs !! "slug"
  ∧ data !! "description" = JVal <$> attrs !! "description"
  ∧ data !! "status" = JVal <$> attrs !! "status_slug"
  ∧ data !! "latitude" = JVal <$> attrs !! "latitude"
  ∧ data !! "longitude" = JVal <$> attrs !! "longitude"
  ∧ data !! "region" = region_ref <$> attrs !! "region_name"
  ∧ (∀ k, k ≠ "slug" → k ≠ "description" → k ≠ "status" → k ≠ "latitude" →
          k ≠ "longitude" → k ≠ "region" → data !! k = None).

(** The body of a site PATCH, as a function of the change set. *)
Definition site_patch_data (attrs : gmap string pyval) : gmap string json :=
  put_if "longitude" "longitude" JVal attrs
    (put_if "latitude" "latitude" JVal attrs
       (put_if "region_name" "region" region_ref attrs
          (put_if "status_slug" "status" JVal attrs
             (put_if "description" "description" JVal attrs
                (put_if "slug" "slug" JVal attrs ∅))))).

(** The body of a region POST: [description] only when it is truthy,
    [parent] (the parent's primary key as text) only when a parent is
    named. *)
Definition region_post_data (name slug description : pyval) (parent : option pyval)
    (str : pyval → string) : gmap string json :=
  let data := <["slug" := JVal slug]> (<["name" := JVal name]> ∅) in
  let data := if truthy description
              then <["description" := JVal description]> data else data in
  match parent with
  | Some pk => <["parent" := JVal (PStr (str pk))]> data
  | None => data
  end.

(** The body of a site POST: all seven fields, always. *)
Definition site_post_data
    (name slug description status region_name latitude longitude : pyval)
  : gmap string json :=
  <["longitude" := JVal longitude]>
    (<["latitude" := JVal latitude]>
       (<["region" := region_ref region_name]>
          (<["status" := JVal status]>
             (<["description" := JVal description]>
                (<["slug" := JVal slug]> (<["name" := JVal name]> ∅)))))).

(** The parent named by a region's [parent_name]: none when the name is
    falsy, and else the primary key of the region of that name in the local
    record graph. *)
Definition resolves (w : NWorld) (parent_name : pyval) (parent : option pyval) : Prop :=
  (truthy parent_name = false ∧ parent = None)
  ∨ (∃ p l po pk,
       parent_name = PStr p ∧ p ≠ ""
       ∧ graph w !! (get_type NautobotRemote.region, p) = Some l
       ∧ objects w !! l = Some po
       ∧ fields po !! "pk" = Some pk
       ∧ parent = Some pk).

(** The events that come from the base record class. *)
Definition is_base (e : Event) : bool :=
  match e with
  | Sent _ => false
  | BaseCreate _ _ _ | BaseUpdate _ _ => true
  end.

(** The three ways a remote write can go from the state [w]: it fails
    before anything is sent and leaves the state alone; or it sends one
    request, which is answered with an error status, raises that error and
    leaves the objects and the record graph alone; or it sends one request,
    which is answered without error status, then reaches the base class
    once, and returns. *)
Definition write_outcome {A} (c : M NWorld A) (w : NWorld) : Prop :=
  ((c w).2 = w ∧ ∀ a, (c w).1 ≠ Ok a)
  ∨ (∃ req,
       events (c w).2 = events w ++ [Sent req]
       ∧ NautobotRemote.http_error (remote w req) = true
       ∧ (c w).1 = Raise (HTTPError (remote w req))
       ∧ objects (c w).2 = objects w
       ∧ graph (c w).2 = graph w)
  ∨ (∃ req e a,
       events (c w).2 = events w ++ [Sent req; e]
       ∧ is_base e = true
       ∧ NautobotRemote.http_error (remote w req) = false
       ∧ (c w).1 = Ok a).

(** The endpoint and the HTTP method of each remote write. *)
Definition endpoint (op : remote_write) : string :=
  match op with
  | RegionCreate _ _ | RegionUpdate _ _ => "/api/dcim/regions/"
  | SiteCreate _ _ | SiteUpdate _ _ => "/api/dcim/sites/"
  end.

Definition verb (op : remote_write) : http_method :=
  match op with
  | RegionCreate _ _ | SiteCreate _ _ => POST
  | RegionUpdate _ _ | SiteUpdate _ _ => PATCH
  end.

(** A request as the adapter [d] sends it for the write [op]: the write's
    method, a URL below the write's endpoint on the adapter's remote
    system, the adapter's token and a JSON body. *)
Definition well_addressed (d : NautobotRemote.t) (op : remote_write) (req : Request)
  : Prop :=
  method req = verb op
  ∧ (∃ rest, target req = NautobotRemote.url d +:+ endpoint op +:+ rest)
  ∧ req_headers req !! "Authorization" = Some ("Token " +:+ NautobotRemote.token d)
  ∧ req_headers req !! "Accept" = Some "application/json"
  ∧ is_Some (json_body req).

(** A computation whose first request, if it sends one, satisfies [P]. *)
Definition first_request {A} (P : Request → Prop) (c : M NWorld A) : Prop :=
  ∀ w req rest, events (c w).2 = events w ++ Sent req :: rest → P req.

(** A site record of the Nautobot example (remote primary key 12), next to
    the region it lies in and a region below that one, and the identifier
    and attribute values of a site and of a region still to be created. *)
Module SampleSite.

Definition ams : PyObject :=
  {| cls := SiteModel;
     fields := <["name" := PStr "AMS01"]>
                 (<["slug" := PStr "ams01"]>
                    (<["description" := PStr ""]>
                       (<["status_slug" := PStr "active"]>
                          (<["region_name" := PStr "EMEA"]>
                             (<["latitude" := PNone]>
                                (<["longitude" := PNone]>
                                   (<["pk" := PInt 12]> ∅)))))));
     diffsync := BAdapter Sample.owner_adapter |}.

Definition uk : PyObject :=
  {| cls := RegionModel;
     fields := <["name" := PStr "UK"]>
                 (<["slug" := PStr "uk"]>
                    (<["description" := PNone]>
                       (<["parent_name" := PNone]> (<["pk" := PInt 9]> ∅))));
     diffsync := BAdapter Sample.owner_adapter |}.

Definition answering (status : Z) : NWorld :=
  {| objects := <[2 := uk]> (<[1 := ams]> (<[0 := Sample.emea]> ∅));
     graph := <[("region", "UK") := 2]>
                (<[("site", "AMS01") := 1]> (<[("region", "EMEA") := 0]> ∅));
     remote := λ _, status;
     events := [] |}.

Definition lon_ids : gmap string pyval := {[ "name" := PStr "LON01" ]}.
Definition lon_attrs : gmap string pyval :=
  <["slug" := PStr "lon01"]>
    (<["description" := PStr ""]>
       (<["status_slug" := PStr "planned"]>
          (<["region_name" := PStr "EMEA"]>
             (<["latitude" := PInt 51]> (<["longitude" := PInt 0]> ∅))))).

Definition fr_ids : gmap string pyval := {[ "name" := PStr "FR" ]}.
Definition fr_attrs (parent : string) : gmap string pyval :=
  <["slug" := PStr "fr"]>
    (<["description" := PStr ""]> (<["parent_name" := PStr parent]> ∅)).

End SampleSite.

(** ** Loading from the remote system

    [NautobotRemote.load] reads the two listings of the remote system page
    by page and registers one record per entry. The record constructor and
    the adapter's [add] belong to the framework, not to these sources: they
    are the step [register], which the framework may refuse. *)

(** A parsed JSON document, as [response.json()] returns it (numbers are
    integers here). *)
#[warnings="-register-all"] Inductive jsonv :=
  | JNull
  | JBool (b : bool)
  | JNum (z : Z)
  | JString (s : string)
  | JArr (l : list jsonv)
  | JDict (d : gmap string jsonv).

(** Python truthiness of a JSON value. *)
Definition truthy_json (v : jsonv) : bool :=
  match v with
  | JNull => false
  | JBool b => b
  | JNum z => negb (Z.eqb z 0)
  | JString s => negb (String.eqb s "")
  | JArr l => match l with [] => false | _ => true end
  | JDict d => negb (Nat.eqb (size d) 0)
  end.

(** [v[k]] with a string key: only a dict can be subscripted that way. *)
Definition subscript (v : jsonv) (k : string) : exn + jsonv :=
  match v with
  | JDict d =>
    match d !! k with
    | Some x => inr x
    | None => inl (KeyError k)
    end
  | _ => inl TypeError
  end.

(** [v.extend]: only a list has the method. *)
Definition as_list (v : jsonv) : exn + list jsonv :=
  match v with
  | JArr l => inr l
  | _ => inl AttributeError
  end.

(** Iteration over a JSON value: the elements of a list, the characters of
    a string, the keys of a dict (whose order is immaterial to [load]:
    every key is a string, and the first entry that is a string fails the
    same way). *)
Definition iterate_json (v : jsonv) : exn + list jsonv :=
  match v with
  | JArr l => inr l
  | JString s => inr (JString <$> characters s)
  | JDict d => inr (JString <$> (map_to_list d).*1)
  | _ => inl TypeError
  end.

(** Sequencing of pure steps that may raise. *)
Definition and_then {A B} (r : exn + A) (k : A → exn + B) : exn + B :=
  match r with
  | inl e => inl e
  | inr a => k a
  end.

Notation "'let+' x ':=' r 'in' k" := (and_then r (λ x, k))
  (at level 10, x pattern, r at level 100, k at level 200).

(** The keyword arguments with which [load] builds a region record from an
    entry of the regions listing. *)
Definition region_kwargs (region_entry : jsonv) : exn + gmap string jsonv :=
  let+ name := subscript region_entry "name" in
  let+ slug := subscript region_entry "slug" in
  let+ description := subscript region_entry "description" in
  let description := if truthy_json description then description else JNull in
  let+ parent := subscript region_entry "parent" in
  let+ parent_name :=
    if truthy_json parent then
      let+ parent := subscript region_entry "parent" in
      subscript parent "name"
    else inr JNull in
  let+ pk := subscript region_entry "id" in
  inr (<["name" := name]>
         (<["slug" := slug]>
            (<["description" := description]>
               (<["parent_name" := parent_name]> (<["pk" := pk]> ∅))))).

(** The keyword arguments with which [load] builds a site record from an
    entry of the sites listing. *)
Definition site_kwargs (site_entry : jsonv) : exn + gmap string jsonv :=
  let+ name := subscript site_entry "name" in
  let+ slug := subscript site_entry "slug" in
  let+ status := subscript site_entry "status" in
  let+ status_slug :=
    if truthy_json status then
      let+ status := subscript site_entry "status" in
      subscript status "value"
    else inr (JString "active") in
  let+ region := subscript site_entry "region" in
  let+ region_name :=
    if truthy_json region then
      let+ region := subscript site_entry "region" in
      subscript region "name"
    else inr JNull in
  let+ description := subscript site_entry "description" in
  let+ longitude := subscript site_entry "longitude" in
  let+ latitude := subscript site_entry "latitude" in
  let+ pk := subscript site_entry "id" in
  inr (<["name" := name]>
         (<["slug" := slug]>
            (<["status_slug" := status_slug]>
               (<["region_name" := region_name]>
                  (<["description" := description]>
                     (<["longitude" := longitude]>
                        (<["latitude" := latitude]> (<["pk" := pk]> ∅)))))))).

(** A GET request of [load]. *)
Record GetRequest := {
  get_url : string;
  get_headers : gmap string string;
  get_params : list (string * Z)
}.

(** What [load] does, in order: listing pages requested and records
    registered. *)
Inductive LEvent :=
  | Got (r : GetRequest)
  | Registered (c : ModelClass) (kwargs : gmap string jsonv).

(** The state [load] runs in: the remote system (the status and the JSON
    document it answers a GET with, or no answer that parses as JSON), the
    framework (which may refuse to build or to add a record, depending on
    what happened so far), and the trace of events. *)
Record LWorld := {
  answers : GetRequest → option (Z * jsonv);
  vetoes : ModelClass → gmap string jsonv → list LEvent → option exn;
  trace : list LEvent
}.

Definition log_trace (evs : list LEvent) (w : LWorld) : LWorld :=
  {| answers := answers w; vetoes := vetoes w; trace := trace w ++ evs |}.

Definition listing_request (self : NautobotRemote.t) (u : string) : GetRequest :=
  {| get_url := u; get_headers := NautobotRemote.headers self;
     get_params := [("limit", 0%Z)] |}.

(** [requests.get(url, headers=self.headers, params={"limit": 0}).json()]:
    the status of the response is not looked at. A URL that is no string,
    and a request that brings back no JSON document, are outside the
    model. *)
Definition requests_get_json (self : NautobotRemote.t) (url : jsonv) : M LWorld jsonv :=
  match url with
  | JString u =>
    λ w, match answers w (listing_request self u) with
         | Some (_, document) =>
           (Ok document, log_trace [Got (listing_request self u)] w)
         | None => (Undefined, w)
         end
  | _ => undefined
  end.

(** [self.add(self.region(...))] and [self.add(self.site(...))]: the record
    is built from the keyword arguments and added to the adapter. *)
Definition register (c : ModelClass) (kwargs : gmap string jsonv) : M LWorld unit :=
  λ w, match vetoes w c kwargs (trace w) with
       | Some e => (Raise e, w)
       | None => (Ok tt, log_trace [Registered c kwargs] w)
       end.

(** [while data["next"]: data = get(data["next"]); entries.extend(data["results"])] *)
Fixpoint follow (fuel : nat) (self : NautobotRemote.t) (data entries : jsonv)
  : M LWorld jsonv :=
  match fuel with
  | O => undefined
  | S fuel' =>
    let* next := of_sum (subscript data "next") in
    if truthy_json next then
      let* next := of_sum (subscript data "next") in
      let* data := requests_get_json self next in
      let* l := of_sum (as_list entries) in
      let* results := of_sum (subscript data "results") in
      let* more := of_sum (iterate_json results) in
      follow fuel' self data (JArr (l ++ more))
    else ret entries
  end.

(** One listing: its first page, the pages after it, and one record per
    entry. *)
Definition load_listing (fuel : nat) (self : NautobotRemote.t) (path : string)
    (c : ModelClass) (kwargs_of : jsonv → exn + gmap string jsonv) : M LWorld unit :=
  let* data := requests_get_json self (JString (NautobotRemote.url self +:+ path)) in
  let* entries := of_sum (subscript data "results") in
  let* entries := follow fuel self data entries in
  let* entries := of_sum (iterate_json entries) in
  for_ entries (λ entry,
    let* kwargs := of_sum (kwargs_of entry) in
    register c kwargs).

Definition load (fuel : nat) (self : NautobotRemote.t) : M LWorld unit :=
  load_listing fuel self "/api/dcim/regions/" NautobotRemote.region region_kwargs ;;
  load_listing fuel self "/api/dcim/sites/" NautobotRemote.site site_kwargs.

(** The pages that follow [data] in a listing of the remote system
    [remote]: the entries they hold, in order, and the URLs they were found
    under. *)
Inductive listing (self : NautobotRemote.t) (remote : GetRequest → option (Z * jsonv))
  : jsonv → list jsonv → list string → Prop :=
  | listing_end data next :
      subscript data "next" = inr next →
      truthy_json next = false →
      listing self remote data [] []
  | listing_next data u status data' es rest urls :
      subscript data "next" = inr (JString u) →
      u ≠ "" →
      remote (listing_request self u) = Some (status, data') →
      subscript data' "results" = inr (JArr es) →
      listing self remote data' rest urls →
      listing self remote data (es ++ rest) (u :: urls).

(** A whole listing under [path]: all its entries, and the URLs of its
    pages after the first. *)
Definition listed (self : NautobotRemote.t) (remote : GetRequest → option (Z * jsonv))
    (path : string) (entries : list jsonv) (urls : list string) : Prop :=
  ∃ status data es rest,
    remote (listing_request self (NautobotRemote.url self +:+ path))
    = Some (status, data)
    ∧ subscript data "results" = inr (JArr es)
    ∧ listing self remote data rest urls
    ∧ entries = es ++ rest.

(** The events of loading a listing without failure. *)
Definition listing_events (self : NautobotRemote.t) (path : string) (c : ModelClass)
    (urls : list string) (kws : list (gmap string jsonv)) : list LEvent :=
  (Got ∘ listing_request self <$> (NautobotRemote.url self +:+ path) :: urls)
  ++ (Registered c <$> kws).

(** Two worlds that differ at most in the status codes of the remote
    system's answers. *)
Definition same_documents (w1 w2 : LWorld) : Prop :=
  (∀ r, snd <$> answers w1 r = snd <$> answers w2 r)
  ∧ vetoes w1 = vetoes w2
  ∧ trace w1 = trace w2.

(** A computation that does not look at status codes. *)
Definition status_blind {A} (c : M LWorld A) : Prop :=
  ∀ w1 w2, same_documents w1 w2 →
    (c w1).1 = (c w2).1 ∧ same_documents (c w1).2 (c w2).2.

(** A remote system with a regions listing of two pages (two entries and a
    link to the next page, then one entry and no link) and a sites listing
    of one page; and a framework that refuses nothing. *)
Module SampleLoad.

Definition region_entry (name slug description : string) (parent : jsonv) (id : Z)
  : jsonv :=
  JDict (<["name" := JString name]>
           (<["slug" := JString slug]>
              (<["description" := JString description]>
                 (<["parent" := parent]> (<["id" := JNum id]> ∅))))).

Definition emea : jsonv := region_entry "EMEA" "emea" "" JNull 7.
Definition apac : jsonv := region_entry "APAC" "apac" "Asia and Pacific" JNull 8.
Definition uk : jsonv :=
  region_entry "UK" "uk" "" (JDict (<["name" := JString "EMEA"]> ∅)) 9.

Definition ams : jsonv :=
  JDict (<["name" := JString "AMS01"]>
           (<["slug" := JString "ams01"]>
              (<["status" := JNull]>
                 (<["region" := JDict (<["name" := JString "EMEA"]> ∅)]>
                    (<["description" := JString ""]>
                       (<["longitude" := JNull]>
                          (<["latitude" := JNull]> (<["id" := JNum 12]> ∅)))))))).

Definition page (results : list jsonv) (next : jsonv) : jsonv :=
  JDict (<["results" := JArr results]> (<["next" := next]> ∅)).

Definition second_page : string :=
  "https://demo.nautobot.com/api/dcim/regions/?limit=2&offset=2".

Definition remote (status : Z) (r : GetRequest) : option (Z * jsonv) :=
  if String.eqb (get_url r) "https://demo.nautobot.com/api/dcim/regions/" then
    Some (status, page [emea; apac] (JString second_page))
  else if String.eqb (get_url r) second_page then
    Some (status, page [uk] JNull)
  else if String.eqb (get_url r) "https://demo.nautobot.com/api/dcim/sites/" then
    Some (status, page [ams] JNull)
  else None.

Definition answering (status : Z) : LWorld :=
  {| answers := remote status; vetoes := λ _ _ _, None; trace := [] |}.

Definition region_args (name slug : string) (description parent_name : jsonv) (pk : Z)
  : gmap string jsonv :=
  <["name" := JString name]>
    (<["slug" := JString slug]>
       (<["description" := description]>
          (<["parent_name" := parent_name]> (<["pk" := JNum pk]> ∅)))).

Definition regions_args : list (gmap string jsonv) :=
  [ region_args "EMEA" "emea" JNull JNull 7;
    region_args "APAC" "apac" (JString "Asia and Pacific") JNull 8;
    region_args "UK" "uk" JNull (JString "EMEA") 9 ].

Definition ams_args : gmap string jsonv :=
  <["name" := JString "AMS01"]>
    (<["slug" := JString "ams01"]>
       (<["status_slug" := JString "active"]>
          (<["region_name" := JString "EMEA"]>
             (<["description" := JString ""]>
                (<["longitude" := JNull]>
                   (<["latitude" := JNull]> (<["pk" := JNum 12]> ∅))))))).

(** An entry of the regions listing without a [slug]. *)
Definition nameless : jsonv := JDict (<["name" := JString "LATAM"]> ∅).

Definition broken (status : Z) (r : GetRequest) : option (Z * jsonv) :=
  if String.eqb (get_url r) "https://demo.nautobot.com/api/dcim/regions/" then
    Some (status, page [emea; nameless; apac] JNull)
  else remote status r.

Definition answering_broken (status : Z) : LWorld :=
  {| answers := broken status; vetoes := λ _ _ _, None; trace := [] |}.

End SampleLoad.

(** * Properties *)

(** ** Running the store's operations *)

Section StoreFacts.
Context `{PyRuntime}.

Lemma load_object_None (s : RedisStore) (w : World) :
  load_object s None w = (Raise ObjectNotFound, w).
Proof. reflexivity. Qed.

Lemma load_object_fail (s : RedisStore) (b : string) (e : exn) (w : World) :
  loads b = inl e →
  load_object s (Some b) w
  = (Raise (if is_TypeError e then ObjectNotFound else e), w).
Proof.
  intros Hl. unfold load_object, try_except, bind, py_loads, of_sum. rewrite Hl.
  simpl. by destruct (is_TypeError e).
Qed.

Lemma load_object_ok (s : RedisStore) (b : string) (o : PyObject) (w : World) :
  loads b = inr o →
  load_object s (Some b) w
  = (Ok (fresh (dom (heap w))),
     set_heap (insert (fresh (dom (heap w))) (set_diffsync (self_diffsync s) o)) w).
Proof.
  intros Hl.
  unfold load_object, try_except, bind, py_loads, of_sum, setattr_diffsync, bind,
    deref, alloc, modify, ret. rewrite Hl. simpl.
  rewrite lookup_insert_eq. simpl. unfold set_heap. simpl.
  by rewrite insert_insert_eq.
Qed.

Lemma get_by_uid (s : RedisStore) (t : typeref) (uid : string) (w : World) :
  get s t (IdStr uid) w
  = load_object s (redis w !! _get_key_for_object s (typeref_modelname t) uid) w.
Proof. by destruct t. Qed.

Lemma add_run (s : RedisStore) (obj : nat) (o : PyObject) (w : World) :
  heap w !! obj = Some o →
  add s obj w
  = (Ok tt,
     {| heap := <[obj := set_diffsync BFalse o]> (heap w);
        redis := <[_get_key_for_object s (get_type (cls o)) (get_unique_id o)
                   := dumps (set_diffsync BFalse o)]> (redis w) |}).
Proof.
  intros Ho.
  unfold add, copy_copy, setattr_diffsync, bind, deref, modify, ret.
  repeat (rewrite Ho; simpl). rewrite lookup_insert_eq. simpl.
  by unfold set_redis, set_heap, redis_set.
Qed.

Lemma fresh_heap_None (w : World) : heap w !! fresh (dom (heap w)) = None.
Proof. apply not_elem_of_dom, is_fresh. Qed.

(** C8: [update] and [add] are the same function of the store, the record
    reference and the state: same result and same final state. *)
Theorem update_same_as_add (s : RedisStore) (obj : nat) (w : World) :
  update s obj w = add s obj w.
Proof. reflexivity. Qed.

(** C3: [add] on a record never raises, whatever the service already
    holds: it returns normally and the service then holds, at the record's
    derived key, the pickle of the detached record, every other key being as
    before. In particular the outcome is never AlreadyExists, also when the
    key is already taken. *)
Theorem add_never_raises (s : RedisStore) (obj : nat) (o : PyObject) (w : World) :
  heap w !! obj = Some o →
  ∃ w', add s obj w = (Ok tt, w')
    ∧ fst (add s obj w) ≠ Raise ObjectAlreadyExists
    ∧ redis w' = <[_get_key_for_object s (get_type (cls o)) (get_unique_id o)
                   := dumps (set_diffsync BFalse o)]> (redis w).
Proof.
  intros Ho. rewrite (add_run _ _ _ _ Ho). eexists. split; [done|].
  split; [done|]. reflexivity.
Qed.

(** What [add] and [update] do to the heap: the record passed in loses its
    back-reference (it is set to [False] through the copy, which shares the
    record's attributes); its class and fields, and every other object,
    are as before. *)
Lemma add_update_heap (s : RedisStore) (obj : nat) (o : PyObject) (w : World) :
  heap w !! obj = Some o →
  heap (add s obj w).2 = <[obj := set_diffsync BFalse o]> (heap w)
  ∧ heap (update s obj w).2 = <[obj := set_diffsync BFalse o]> (heap w).
Proof.
  intros Ho. change (update s obj w) with (add s obj w).
  by rewrite (add_run _ _ _ _ Ho).
Qed.

(** C1: after [add] of a record, [get] with the record's type (as a model
    name, a class or an instance) and its unique id succeeds, and the
    record it returns has the class and exactly the field values of the
    one added (hence equal identifier and attribute fields); its
    back-reference is the reading store's adapter. *)
Theorem add_then_get_roundtrip
    (s : RedisStore) (obj : nat) (o : PyObject) (t : typeref) (w : World) :
  heap w !! obj = Some o →
  typeref_modelname t = get_type (cls o) →
  ∃ o', returned_object (get s t (IdStr (get_unique_id o)) (add s obj w).2) = Ok o'
    ∧ cls o' = cls o
    ∧ fields o' = fields o
    ∧ (∀ f, f ∈ _identifiers (cls o) ++ _attributes (cls o) →
         fields o' !! f = fields o !! f)
    ∧ diffsync o' = self_diffsync s.
Proof.
  intros Ho Ht. rewrite (add_run _ _ _ _ Ho). simpl.
  rewrite get_by_uid, Ht. simpl. rewrite lookup_insert_eq.
  rewrite (load_object_ok _ _ _ _ (loads_dumps _)). simpl.
  rewrite lookup_insert_eq.
  exists (set_diffsync (self_diffsync s) (set_diffsync BFalse o)).
  repeat split; done.
Qed.

End StoreFacts.

Lemma add_never_raises_witness :
  ∃ w', add (H := bit_runtime) Sample.store_a 0 Sample.w0 = (Ok tt, w').
Proof.
  destruct (add_never_raises (H := bit_runtime) Sample.store_a 0 Sample.us Sample.w0)
    as (w' & Hrun & _); [reflexivity|].
  by exists w'.
Defined.

(** C10 fails on the code: the region [us] is attached to its adapter when
    it is passed to [add] (or to [update]), and detached when the call
    returns. The code means to clear the back-reference of a copy only, but
    the copy shares the record's attributes, so the assignment reaches the
    record passed in. Class and fields stay as they were. *)
Theorem add_detaches_the_record_passed_in :
  heap Sample.w0 !! 0 = Some Sample.us
  ∧ diffsync Sample.us = BAdapter Sample.owner_adapter
  ∧ heap (add (H := bit_runtime) Sample.store_a 0 Sample.w0).2 !! 0
    = Some (set_diffsync BFalse Sample.us)
  ∧ heap (update (H := bit_runtime) Sample.store_a 0 Sample.w0).2 !! 0
    = Some (set_diffsync BFalse Sample.us)
  ∧ diffsync (set_diffsync BFalse Sample.us) = BFalse
  ∧ fields (set_diffsync BFalse Sample.us) = fields Sample.us
  ∧ set_diffsync BFalse Sample.us ≠ Sample.us.
Proof.
  destruct (add_update_heap (H := bit_runtime) Sample.store_a 0 Sample.us Sample.w0
              eq_refl) as [Hadd Hupdate].
  rewrite Hadd, Hupdate, lookup_insert_eq.
  repeat split. discriminate.
Qed.

Lemma add_then_get_roundtrip_witness :
  ∃ o', returned_object
          (get (H := bit_runtime) Sample.store_a (TName "region") (IdStr "us")
             (add (H := bit_runtime) Sample.store_a 0 Sample.w0).2) = Ok o'
        ∧ fields o' = fields Sample.us.
Proof.
  destruct (add_then_get_roundtrip (H := bit_runtime)
              Sample.store_a 0 Sample.us (TName "region") Sample.w0)
    as (o' & Hget & _ & Hf & _); [reflexivity|reflexivity|].
  exists o'. split; [exact Hget|exact Hf].
Defined.

(** ** Failed lookups *)

Section LookupFailures.
Context `{PyRuntime}.

Lemma load_object_error (s : RedisStore) (v : option string) (e : exn) (w : World) :
  lookup_error v = Some e → load_object s v w = (Raise e, w).
Proof.
  destruct v as [b|]; simpl.
  - destruct (loads b) as [e'|o] eqn:Hl; [|done].
    intros [= <-]. by apply load_object_fail.
  - intros [= <-]. apply load_object_None.
Qed.

Lemma load_object_fine (s : RedisStore) (v : option string) (w : World) :
  lookup_error v = None →
  ∃ l w', load_object s v w = (Ok l, w') ∧ redis w' = redis w.
Proof.
  destruct v as [b|]; simpl; [|done].
  destruct (loads b) as [e'|o] eqn:Hl; [done|]. intros _.
  rewrite (load_object_ok _ _ _ _ Hl). by eexists _, _.
Qed.

Lemma lookup_error_kind (v : option string) (e : exn) :
  lookup_error v = Some e →
  e ≠ TypeError
  ∧ (e = ObjectNotFound ∨ ∃ b, v = Some b ∧ loads b = inl e).
Proof.
  destruct v as [b|]; simpl.
  - destruct (loads b) as [e'|o] eqn:Hl; [|done].
    unfold is_TypeError. case_bool_decide as He; intros [= <-].
    + split; [done|by left].
    + split; [done|]. right. by exists b.
  - intros [= <-]. split; [done|by left].
Qed.

(** The loop of [get_all] and [get_by_uids] stops at the first key whose
    read fails, with that key's error. *)
Lemma collect_stops_at_first_error
    (s : RedisStore) (keyf : string → string) (pre : list string) (x : string)
    (post : list string) (e : exn) (w : World) :
  Forall (λ u, lookup_error (redis w !! keyf u) = None) pre →
  lookup_error (redis w !! keyf x) = Some e →
  fst (collect (pre ++ x :: post)
         (λ u, let* v := gets (λ w1, redis_get (keyf u) (redis w1)) in
               load_object s v) w) = Raise e.
Proof.
  revert w. induction pre as [|u pre IH]; intros w Hpre Hx; simpl.
  - unfold bind at 1. unfold bind at 1. unfold gets, redis_get. simpl.
    by rewrite (load_object_error _ _ _ _ Hx).
  - apply Forall_cons in Hpre as [Hu Hpre].
    unfold bind at 1. unfold bind at 1. unfold gets, redis_get. simpl.
    destruct (load_object_fine s _ w Hu) as (l & w' & -> & Hdb).
    unfold bind at 1.
    specialize (IH w'). rewrite Hdb in IH. specialize (IH Hpre Hx).
    destruct (collect _ _ w') as [[ls| |] w'']; simpl in *; done.
Qed.

(** C5, as amended: a key that is absent when [get], [get_all] or
    [get_by_uids] read it is reported as NotFound. A stored value that
    cannot be unpickled is reported as NotFound only when the unpickler
    fails with a [TypeError]; any other unpickling error reaches the caller
    as it is. For the two loops this is the error of the first key that
    fails, in enumeration order. *)
Theorem lookup_failures_reported
    (s : RedisStore) (t : typeref) (w : World) (e : exn) :
  (∀ uid,
     lookup_error (redis w !! _get_key_for_object s (typeref_modelname t) uid) = Some e →
     get s t (IdStr uid) w = (Raise e, w))
  ∧ (∀ pre uid post,
       Forall (λ u, lookup_error
                      (redis w !! _get_key_for_object s (typeref_modelname t) u) = None) pre →
       lookup_error (redis w !! _get_key_for_object s (typeref_modelname t) uid) = Some e →
       fst (get_by_uids s (pre ++ uid :: post) t w) = Raise e)
  ∧ (∀ pre key post,
       scan_iter (_store_label s +:+ ":" +:+ typeref_modelname t +:+ ":*") (redis w)
       = pre ++ key :: post →
       Forall (λ k, lookup_error (redis w !! k) = None) pre →
       lookup_error (redis w !! key) = Some e →
       fst (get_all s t w) = Raise e)
  ∧ (∀ v, lookup_error v = Some e →
       e ≠ TypeError ∧ (e = ObjectNotFound ∨ ∃ b, v = Some b ∧ loads b = inl e))
  ∧ lookup_error None = Some ObjectNotFound.
Proof.
  split; [|split; [|split; [|split]]].
  - intros uid He. rewrite get_by_uid. by apply load_object_error.
  - intros pre uid post Hpre He. unfold get_by_uids.
    by apply (collect_stops_at_first_error s
                (_get_key_for_object s (typeref_modelname t))).
  - intros pre key post Hscan Hpre He. unfold get_all.
    unfold bind at 1. unfold gets at 1. simpl. rewrite Hscan.
    by apply (collect_stops_at_first_error s id).
  - intros v Hv. by apply lookup_error_kind.
  - reflexivity.
Qed.

(** Where [get] does raise [ValueError]: the type argument is a string that
    names no attribute of the store object (or one that is falsy), and the
    identifier is a mapping. Nothing changes. *)
Lemma get_name_with_mapping_invalid
    (s : RedisStore) (n : string) (kw : gmap string pyval) (w : World) :
  store_getattr s n = None ∨ store_getattr s n = Some (AOther false) →
  get s (TName n) (IdMapping kw) w = (Raise ValueError, w).
Proof. intros [Hn|Hn]; unfold get; by rewrite Hn. Qed.

End LookupFailures.

Lemma lookup_failures_reported_witness :
  get (H := bit_runtime) Sample.store_a (TName "region") (IdStr "eu") Sample.w0
  = (Raise ObjectNotFound, Sample.w0).
Proof.
  destruct (lookup_failures_reported (H := bit_runtime)
              Sample.store_a (TName "region") Sample.w0 ObjectNotFound)
    as [Hget _].
  apply Hget. reflexivity.
Defined.

(** C5, as stated, fails: the key of region [us] exists and its value
    cannot be unpickled, yet all three lookups report the unpickler's
    [EOFError] and not NotFound. *)
Lemma undecodable_value_is_not_NotFound :
  redis Sample.corrupt !! _get_key_for_object Sample.store_a "region" "us" = Some ""
  ∧ loads (PyRuntime := bit_runtime) "" = inl EOFError
  ∧ fst (get (H := bit_runtime) Sample.store_a (TName "region") (IdStr "us")
           Sample.corrupt) = Raise EOFError
  ∧ fst (get_all (H := bit_runtime) Sample.store_a (TName "region")
           Sample.corrupt) = Raise EOFError
  ∧ fst (get_by_uids (H := bit_runtime) Sample.store_a ["us"] (TName "region")
           Sample.corrupt) = Raise EOFError
  ∧ Raise (A := nat) EOFError ≠ Raise ObjectNotFound.
Proof. repeat split; try (vm_compute; reflexivity). discriminate. Qed.

(** C6 fails on the code. The docstring of [get] promises [ValueError]
    whenever the type is given as a string and the identifier as a mapping,
    and for a string that names nothing on the store, such as ["region"],
    that is what [get] raises. But ["get"] is a string too, the identifier
    is a mapping, and [get] raises [AttributeError]: the string is looked
    up on the store object, finds the store's own method, and the
    unique-id constructor is then looked up on that method. *)
Theorem get_method_name_with_mapping_not_ValueError :
  get (H := bit_runtime) Sample.store_a (TName "get")
    (IdMapping {[ "slug" := PStr "na" ]}) Sample.w0
  = (Raise AttributeError, Sample.w0)
  ∧ Raise (A := nat) AttributeError ≠ Raise ValueError
  ∧ get (H := bit_runtime) Sample.store_a (TName "region")
      (IdMapping {[ "slug" := PStr "na" ]}) Sample.w0
    = (Raise ValueError, Sample.w0).
Proof.
  split; [reflexivity|]. split; [discriminate|].
  apply (get_name_with_mapping_invalid (H := bit_runtime)). by left.
Qed.

(** ** The Nautobot adapter: failed remote calls *)

Section RemoteWrites.
Context `{PyRuntime}.

Lemma readonly_ret {A} (a : A) : readonly (ret a).
Proof. by intros w. Qed.

Lemma readonly_raise {A} (e : exn) : readonly (raise (A := A) e).
Proof. by intros w. Qed.

Lemma readonly_of_sum {A} (r : exn + A) : readonly (of_sum r).
Proof. by destruct r; intros w. Qed.

Lemma readonly_gets {A} (f : NWorld → A) : readonly (gets f).
Proof. by intros w. Qed.

Lemma readonly_nderef (l : nat) : readonly (nderef l).
Proof. intros w. unfold nderef. by destruct (objects w !! l). Qed.

Lemma readonly_owner (d : NautobotRemote.t) (o : PyObject) : readonly (owner d o).
Proof. intros w. unfold owner. by destruct (diffsync o). Qed.

Lemma readonly_bind {A B} (c : M NWorld A) (k : A → M NWorld B) :
  readonly c → (∀ a, readonly (k a)) → readonly (bind c k).
Proof.
  intros Hc Hk w. unfold bind. specialize (Hc w).
  destruct (c w) as [[a|e|] w1]; simpl in *; subst; try done. apply Hk.
Qed.

Lemma readonly_adapter_get (c : ModelClass) (i : pyval) : readonly (adapter_get c i).
Proof.
  destruct i; try apply readonly_raise. simpl.
  apply readonly_bind; [apply readonly_gets|].
  intros [l|]; [apply readonly_ret|apply readonly_raise].
Qed.

Lemma readonly_if {A} (b : bool) (c1 c2 : M NWorld A) :
  readonly c1 → readonly c2 → readonly (if b then c1 else c2).
Proof. by destruct b. Qed.

Lemma no_new_event (l : list Event) (e : Event) (rest : list Event) :
  l = l ++ e :: rest → False.
Proof.
  intros Heq. apply (f_equal length) in Heq.
  rewrite length_app in Heq. simpl in Heq. lia.
Qed.

Lemma clean_bind_readonly {A B} (c : M NWorld A) (k : A → M NWorld B) :
  readonly c → (∀ a, clean_failure (k a)) → clean_failure (bind c k).
Proof.
  intros Hc Hk w req rest. unfold bind. specialize (Hc w).
  destruct (c w) as [[a|e|] w1]; simpl in *; subst.
  - apply Hk.
  - intros Hev. by apply no_new_event in Hev.
  - intros Hev. by apply no_new_event in Hev.
Qed.

Lemma appends_base_create (c : ModelClass) (a : Adapter) (ids attrs : gmap string pyval) :
  appends (base_create c a ids attrs).
Proof. intros w. by eexists. Qed.

Lemma appends_base_update (self : nat) (attrs : gmap string pyval) :
  appends (base_update self attrs).
Proof.
  intros w. unfold base_update, bind, nderef.
  destruct (objects w !! self); simpl; [by eexists|].
  exists []. by rewrite app_nil_r.
Qed.

(** A request followed by the delegation to the base class. *)
Lemma clean_send_then {A}
    (r : Request) (k : M NWorld A) :
  appends k →
  clean_failure
    ((let* response := NautobotRemote.send r in
      NautobotRemote.raise_for_status response ;; ret response) ;; k).
Proof.
  intros Hk w req rest. unfold bind, NautobotRemote.send,
    NautobotRemote.raise_for_status. simpl.
  destruct (NautobotRemote.http_error (remote w r)) eqn:Hst; simpl.
  - intros Hev Herr. apply app_inv_head in Hev. by simplify_eq.
  - destruct (Hk (log_event (Sent r) w)) as [evs Hevs].
    rewrite Hevs. simpl. rewrite <- app_assoc. simpl.
    intros Hev Herr. apply app_inv_head in Hev. simplify_eq. congruence.
Qed.

Lemma clean_post_then {A}
    (d : NautobotRemote.t) (path : string) (data : gmap string json) (k : M NWorld A) :
  appends k → clean_failure (NautobotRemote.post d path data ;; k).
Proof.
  intros Hk w req rest Hev Herr.
  by apply (clean_send_then _ k Hk w req rest).
Qed.

Lemma clean_patch_then {A}
    (d : NautobotRemote.t) (path : string) (data : gmap string json) (k : M NWorld A) :
  appends k → clean_failure (NautobotRemote.patch d path data ;; k).
Proof.
  intros Hk w req rest Hev Herr.
  by apply (clean_send_then _ k Hk w req rest).
Qed.

End RemoteWrites.

Ltac readonly_tac :=
  repeat first
    [ apply readonly_ret | apply readonly_raise | apply readonly_of_sum
    | apply readonly_gets | apply readonly_nderef | apply readonly_owner
    | apply readonly_adapter_get | apply readonly_if
    | apply readonly_bind; [|intros ?] ].

Ltac clean_tac :=
  repeat first
    [ apply clean_post_then; apply appends_base_create
    | apply clean_patch_then; apply appends_base_update
    | apply clean_bind_readonly; [solve [readonly_tac]|intros ?] ].

Section RemoteFailure.
Context `{PyRuntime}.

Lemma clean_region_create (d : NautobotRemote.t) (ids attrs : gmap string pyval) :
  clean_failure (RegionNautobotModel.create d ids attrs).
Proof. unfold RegionNautobotModel.create. clean_tac. Qed.

Lemma clean_region_update (d : NautobotRemote.t) (self : nat) (attrs : gmap string pyval) :
  clean_failure (RegionNautobotModel.update d self attrs).
Proof. unfold RegionNautobotModel.update. clean_tac. Qed.

Lemma clean_site_create (d : NautobotRemote.t) (ids attrs : gmap string pyval) :
  clean_failure (SiteNautobotModel.create d ids attrs).
Proof. unfold SiteNautobotModel.create. clean_tac. Qed.

Lemma clean_site_update (d : NautobotRemote.t) (self : nat) (attrs : gmap string pyval) :
  clean_failure (SiteNautobotModel.update d self attrs).
Proof. unfold SiteNautobotModel.update. clean_tac. Qed.

(** C2, as amended: when the request that a region or site create or
    update sends is answered with a client-error or server-error status
    (400 to 599), the call raises the HTTP error to its caller, nothing
    happens after the request (the base create or update is not reached),
    and the objects and the local record graph are as before the call. *)
Theorem remote_error_leaves_graph_unchanged
    (d : NautobotRemote.t) (op : remote_write) (w : NWorld)
    (req : Request) (rest : list Event) :
  events (run_write d op w).2 = events w ++ Sent req :: rest →
  NautobotRemote.http_error (remote w req) = true →
  (run_write d op w).1 = Raise (HTTPError (remote w req))
  ∧ rest = []
  ∧ objects (run_write d op w).2 = objects w
  ∧ graph (run_write d op w).2 = graph w.
Proof.
  destruct op; simpl.
  - apply clean_region_create.
  - apply clean_region_update.
  - apply clean_site_create.
  - apply clean_site_update.
Qed.

End RemoteFailure.

Lemma remote_error_leaves_graph_unchanged_witness :
  (run_write (H := bit_runtime) Sample.nautobot
     (RegionCreate Sample.apac_ids Sample.apac_attrs) (Sample.answering 500)).1
  = Raise (HTTPError 500)
  ∧ graph (run_write (H := bit_runtime) Sample.nautobot
             (RegionCreate Sample.apac_ids Sample.apac_attrs) (Sample.answering 500)).2
    = graph (Sample.answering 500).
Proof.
  destruct (remote_error_leaves_graph_unchanged (H := bit_runtime) Sample.nautobot
              (RegionCreate Sample.apac_ids Sample.apac_attrs) (Sample.answering 500)
              {| method := POST;
                 target := "https://demo.nautobot.com/api/dcim/regions/";
                 req_headers := NautobotRemote.headers Sample.nautobot;
                 json_body := Some (<["slug" := JVal (PStr "apac")]>
                                      (<["name" := JVal (PStr "APAC")]> ∅)) |}
              [])
    as (Hres & _ & _ & Hgraph); [reflexivity|reflexivity|].
  split; [exact Hres|exact Hgraph].
Defined.

(** C2, as stated, fails: a response with status 304 is not a success
    response, yet [raise_for_status] lets it pass: the region create
    returns normally, the base create is reached and the new record is in
    the local graph. *)
Lemma status_304_reaches_base_create :
  NautobotRemote.http_error 304 = false
  ∧ (RegionNautobotModel.create (H := bit_runtime) Sample.nautobot
       Sample.apac_ids Sample.apac_attrs (Sample.answering 304)).1 = Ok 1
  ∧ graph (Sample.answering 304) !! ("region", "APAC") = None
  ∧ graph (RegionNautobotModel.create (H := bit_runtime) Sample.nautobot
             Sample.apac_ids Sample.apac_attrs (Sample.answering 304)).2
      !! ("region", "APAC") = Some 1
  ∧ last (events (RegionNautobotModel.create (H := bit_runtime) Sample.nautobot
                    Sample.apac_ids Sample.apac_attrs (Sample.answering 304)).2)
    = Some (BaseCreate RegionModel Sample.apac_ids Sample.apac_attrs).
Proof. repeat split; vm_compute; reflexivity. Qed.

(** ** The Nautobot adapter: the body of a region PATCH *)

Section RegionPatch.
Context `{PyRuntime}.

Lemma first_new_event (l : list Event) (e e' : Event) (rest rest' : list Event) :
  l ++ e :: rest = l ++ e' :: rest' → e = e' ∧ rest = rest'.
Proof. intros Heq. apply app_inv_head in Heq. by simplify_eq. Qed.

Ltac sent_tac :=
  match goal with
  | Hev : events ?w = events ?w ++ _ :: _ |- _ =>
    exfalso; exact (no_new_event _ _ _ Hev)
  | Hev : events ?w ++ [?e] = events ?w ++ _ :: _ |- _ =>
    apply first_new_event in Hev as [Hev _]
  | Hev : (events ?w ++ [?e]) ++ _ = events ?w ++ _ :: _ |- _ =>
    rewrite <- app_assoc in Hev; apply first_new_event in Hev as [Hev _]
  end.

Ltac inner_case Hev :=
  match type of Hev with
  | context [match ?x with _ => _ end] =>
    lazymatch x with
    | context [match _ with _ => _ end] => fail
    | _ => destruct x eqn:?
    end
  end.

(** Whatever the change set, a request sent by the region update is a
    PATCH whose body holds what the change set allows. *)
Lemma region_update_body_ok
    (d : NautobotRemote.t) (self : nat) (attrs : gmap string pyval) (w : NWorld)
    (req : Request) (rest : list Event) :
  events (RegionNautobotModel.update d self attrs w).2 = events w ++ Sent req :: rest →
  method req = PATCH
  ∧ ∃ data, json_body req = Some data ∧ region_body_ok attrs data.
Proof.
  unfold RegionNautobotModel.update, NautobotRemote.patch, NautobotRemote.send,
    NautobotRemote.raise_for_status, base_update, adapter_get, owner, nderef,
    bind, of_sum, item, getattr, gets, ret, raise, log_event.
  intros Hev.
  destruct (attrs !! "slug") as [vs|] eqn:Hs;
  destruct (attrs !! "description") as [vd|] eqn:Hd;
  destruct (attrs !! "parent_name") as [vp|] eqn:Hp; simpl in Hev;
  repeat (inner_case Hev; simpl in Hev);
  sent_tac; injection Hev as <-; (split; [done|]); eexists; (split; [done|]);
  unfold region_body_ok; repeat split; intros; simplify_map_eq; congruence.
Qed.


(** A region update whose change set leaves the parent alone, or clears
    it, always sends its PATCH to the record's own endpoint. *)
Lemma region_update_sends
    (d : NautobotRemote.t) (self : nat) (attrs : gmap string pyval) (w : NWorld)
    (o : PyObject) (a : Adapter) (pk : pyval) :
  objects w !! self = Some o →
  diffsync o = BAdapter a →
  fields o !! "pk" = Some pk →
  (∀ v, attrs !! "parent_name" = Some v → truthy v = false) →
  ∃ data rest,
    events (RegionNautobotModel.update d self attrs w).2
    = events w ++
      Sent {| method := PATCH;
              target := NautobotRemote.url d +:+ "/api/dcim/regions/" +:+ py_str pk +:+ "/";
              req_headers := NautobotRemote.headers d;
              json_body := Some data |} :: rest.
Proof.
  intros Ho Ha Hpk Hclear.
  unfold RegionNautobotModel.update, NautobotRemote.patch, NautobotRemote.send,
    NautobotRemote.raise_for_status, base_update, owner, nderef,
    bind, of_sum, item, getattr, gets, ret, raise, log_event.
  destruct (attrs !! "slug") as [vs|] eqn:Hs;
  destruct (attrs !! "description") as [vd|] eqn:Hd;
  destruct (attrs !! "parent_name") as [vp|] eqn:Hp; simpl;
  rewrite ?(Hclear _ eq_refl); simpl; rewrite ?Ho; simpl; rewrite ?Ha; simpl;
  rewrite ?Hpk; simpl;
  match goal with
  | |- context [NautobotRemote.http_error ?st] =>
    destruct (NautobotRemote.http_error st)
  end; simpl; rewrite ?Ho; simpl; rewrite <- ?app_assoc; by eexists _, _.
Qed.

(** C9: a region update whose change set holds only [slug] sends a PATCH
    whose body is exactly [{slug: value}]. When the change set leaves the
    parent alone or clears it, the PATCH goes to the record's own endpoint
    and its body holds [slug] and [description] exactly when the change set
    does, with the same values, holds no [parent] when the change set has
    no [parent_name], holds nothing else, and holds [parent] explicitly as
    null when the change set clears [parent_name]. For every change set,
    whatever request the update sends is a PATCH whose body leaves out the
    attributes that the change set leaves out. *)
Theorem region_update_patch_body
    (d : NautobotRemote.t) (self : nat) (attrs : gmap string pyval) (w : NWorld)
    (o : PyObject) (a : Adapter) (pk : pyval) :
  objects w !! self = Some o →
  diffsync o = BAdapter a →
  fields o !! "pk" = Some pk →
  (∀ v, attrs !! "parent_name" = Some v → truthy v = false) →
  (∃ data rest,
     events (RegionNautobotModel.update d self attrs w).2
     = events w ++
       Sent {| method := PATCH;
               target := NautobotRemote.url d +:+ "/api/dcim/regions/" +:+ py_str pk +:+ "/";
               req_headers := NautobotRemote.headers d;
               json_body := Some data |} :: rest
     ∧ region_body_ok attrs data
     ∧ (∀ v, attrs = {[ "slug" := v ]} → data = {[ "slug" := JVal v ]})
     ∧ (attrs !! "slug" = None → data !! "slug" = None)
     ∧ (attrs !! "description" = None → data !! "description" = None)
     ∧ (attrs !! "parent_name" = None → data !! "parent" = None)
     ∧ (∀ v, attrs !! "parent_name" = Some v → data !! "parent" = Some (JVal PNone)))
  ∧ (∀ self0 attrs0 w0 req rest,
       events (RegionNautobotModel.update d self0 attrs0 w0).2
       = events w0 ++ Sent req :: rest →
       method req = PATCH
       ∧ ∃ data, json_body req = Some data ∧ region_body_ok attrs0 data).
Proof.
  intros Ho Ha Hpk Hclear. split; [|by apply region_update_body_ok].
  destruct (region_update_sends d self attrs w o a pk Ho Ha Hpk Hclear)
    as (data & rest & Hev).
  exists data, rest. split; [exact Hev|].
  destruct (region_update_body_ok d self attrs w _ rest Hev) as (_ & data' & Hb & Hok).
  simpl in Hb. injection Hb as <-.
  split; [exact Hok|].
  destruct Hok as (Hslug & Hdesc & Hnop & Hnull & Hother).
  repeat split.
  - intros v ->. apply map_eq. intros k.
    destruct (decide (k = "slug")) as [->|Hk1].
    { by rewrite Hslug, !lookup_singleton_eq. }
    rewrite lookup_singleton_ne by done.
    destruct (decide (k = "description")) as [->|Hk2].
    { by rewrite Hdesc, lookup_singleton_ne. }
    destruct (decide (k = "parent")) as [->|Hk3].
    { apply Hnop. by rewrite lookup_singleton_ne. }
    by apply Hother.
  - intros Hn. by rewrite Hslug, Hn.
  - intros Hn. by rewrite Hdesc, Hn.
  - exact Hnop.
  - intros v Hv. apply (Hnull v Hv). by apply Hclear.
Qed.

End RegionPatch.

Lemma region_update_patch_body_witness :
  ∃ rest,
    events (RegionNautobotModel.update (H := bit_runtime) Sample.nautobot 0
              {[ "slug" := PStr "emea-2" ]} (Sample.answering 200)).2
    = Sent {| method := PATCH;
              target := "https://demo.nautobot.com/api/dcim/regions/7/";
              req_headers := NautobotRemote.headers Sample.nautobot;
              json_body := Some {[ "slug" := JVal (PStr "emea-2") ]} |} :: rest.
Proof.
  destruct (region_update_patch_body (H := bit_runtime) Sample.nautobot 0
              {[ "slug" := PStr "emea-2" ]} (Sample.answering 200)
              Sample.emea Sample.owner_adapter (PInt 7))
    as ((data & rest & Hev & _ & Honly & _) & _);
    [reflexivity|reflexivity|reflexivity| |].
  - intros v Hv. rewrite lookup_singleton_ne in Hv; [discriminate|done].
  - exists rest. rewrite Hev. rewrite (Honly _ eq_refl). reflexivity.
Defined.

(** ** Computations that move the state along a relation *)

Section Steps.
Context {S : Type} {R : relation S} `{!PreOrder R}.

Lemma steps_ret {A} (a : A) : steps R (ret a).
Proof. intros st. reflexivity. Qed.

Lemma steps_raise {A} (e : exn) : steps R (raise (A := A) e).
Proof. intros st. reflexivity. Qed.

Lemma steps_undefined {A} : steps R (undefined (A := A)).
Proof. intros st. reflexivity. Qed.

Lemma steps_gets {A} (f : S → A) : steps R (gets f).
Proof. intros st. reflexivity. Qed.

Lemma steps_of_sum {A} (r : exn + A) : steps R (of_sum r).
Proof. destruct r; intros st; reflexivity. Qed.

Lemma steps_bind {A B} (c : M S A) (k : A → M S B) :
  steps R c → (∀ a, steps R (k a)) → steps R (bind c k).
Proof.
  intros Hc Hk st. unfold bind. specialize (Hc st).
  destruct (c st) as [[a|e|] st1]; simpl in *; try done.
  etrans; [exact Hc|apply Hk].
Qed.

Lemma steps_try_except {A} (c : M S A) (catches : exn → bool) (h : M S A) :
  steps R c → steps R h → steps R (try_except c catches h).
Proof.
  intros Hc Hh st. unfold try_except. specialize (Hc st).
  destruct (c st) as [[a|e|] st1]; simpl in *; try done.
  destruct (catches e); simpl; [|done].
  etrans; [exact Hc|apply Hh].
Qed.

Lemma steps_for {A} (xs : list A) (body : A → M S unit) :
  (∀ x, steps R (body x)) → steps R (for_ xs body).
Proof.
  intros Hb. induction xs as [|x xs IH]; simpl.
  - apply steps_ret.
  - apply steps_bind; [apply Hb|]. intros _. exact IH.
Qed.

Lemma steps_collect {A B} (xs : list A) (body : A → M S B) :
  (∀ x, steps R (body x)) → steps R (collect xs body).
Proof.
  intros Hb. induction xs as [|x xs IH]; simpl.
  - apply steps_ret.
  - apply steps_bind; [apply Hb|]. intros y.
    apply steps_bind; [exact IH|]. intros ys. apply steps_ret.
Qed.

Lemma steps_if {A} (b : bool) (c1 c2 : M S A) :
  steps R c1 → steps R c2 → steps R (if b then c1 else c2).
Proof. by destruct b. Qed.

End Steps.

Ltac steps_step :=
  lazymatch goal with
  | |- steps _ (ret _) => apply steps_ret
  | |- steps _ (raise _) => apply steps_raise
  | |- steps _ undefined => apply steps_undefined
  | |- steps _ (gets _) => apply steps_gets
  | |- steps _ (of_sum _) => apply steps_of_sum
  | |- steps _ (bind _ _) => apply steps_bind; [|intros ?]
  | |- steps _ (try_except _ _ _) => apply steps_try_except
  | |- steps _ (for_ _ _) => apply steps_for; intros ?
  | |- steps _ (collect _ _) => apply steps_collect; intros ?
  | |- steps _ (if _ then _ else _) => apply steps_if
  | |- steps _ (let '(_, _) := ?p in _) => destruct p
  | |- steps _ (match ?v with Some _ => _ | None => _ end) => destruct v
  end.

Ltac steps_tac := repeat first [solve [auto 2] | steps_step].

(** The store's operations move the process state along every preorder
    that contains their primitive effects. *)
Section StoreSteps.
Context `{PyRuntime}.
Context {R : relation World} `{!PreOrder R}.
Context (s : RedisStore).
Hypothesis R_alloc : ∀ w o, R w (set_heap (insert (fresh (dom (heap w))) o) w).
Hypothesis R_setattr : ∀ w l o b,
  heap w !! l = Some o → R w (set_heap (insert l (set_diffsync b o)) w).

Lemma steps_alloc (o : PyObject) : steps R (alloc o).
Proof. intros w. apply R_alloc. Qed.

Lemma steps_deref (l : nat) : steps R (deref l).
Proof. intros w. unfold deref. destruct (heap w !! l); reflexivity. Qed.

Lemma steps_setattr_diffsync (l : nat) (b : backref) : steps R (setattr_diffsync l b).
Proof.
  intros w. unfold setattr_diffsync, bind, deref, modify.
  destruct (heap w !! l) as [o|] eqn:Hl; simpl; [|reflexivity].
  by apply R_setattr.
Qed.

Lemma steps_load_object (v : option string) : steps R (load_object s v).
Proof.
  unfold load_object, py_loads.
  pose proof steps_alloc. pose proof steps_setattr_diffsync. steps_tac.
Qed.

Lemma steps_get (t : typeref) (i : identifier) : steps R (get s t i).
Proof.
  unfold get.
  destruct (match t with
            | TName n => (n, store_getattr s n)
            | TModel c => (get_type c, Some (AClass c))
            end) as [modelname object_class].
  pose proof steps_load_object.
  destruct i; [steps_tac|]. destruct object_class as [[c|[]]|]; steps_tac.
Qed.

Lemma steps_get_all (t : typeref) : steps R (get_all s t).
Proof. unfold get_all. pose proof steps_load_object. steps_tac. Qed.

Lemma steps_get_by_uids (uids : list string) (t : typeref) : steps R (get_by_uids s uids t).
Proof. unfold get_by_uids. pose proof steps_load_object. steps_tac. Qed.

Lemma steps_add :
  (∀ w k v, own_key s k → R w (set_redis (redis_set k v) w)) →
  ∀ obj, steps R (add s obj).
Proof.
  intros R_set obj. unfold add, copy_copy.
  pose proof steps_alloc. pose proof steps_setattr_diffsync. pose proof steps_deref.
  steps_tac. intros w. apply R_set. by eexists _, _.
Qed.

Lemma steps_remove :
  (∀ w k, own_key s k → R w (set_redis (redis_delete k) w)) →
  ∀ fuel obj remove_children, steps R (remove fuel s obj remove_children).
Proof.
  intros R_del fuel. induction fuel as [|fuel IH]; intros obj remove_children; simpl.
  - apply steps_undefined.
  - pose proof steps_setattr_diffsync. pose proof steps_deref. pose proof steps_get.
    assert (∀ k, own_key s k → steps R (modify (set_redis (redis_delete k)))) as Hdel.
    { intros k Hk w. by apply R_del. }
    steps_tac. apply Hdel. by eexists _, _.
Qed.

End StoreSteps.

(** ** Keys, labels and patterns *)

Example glob_label_prefix :
  glob "diffsync:abc123:region:*" "diffsync:abc123:region:us" = true
  ∧ glob "diffsync:abc123:site:*" "diffsync:abc123:region:us" = false
  ∧ glob "diffsync:abc123:*" "diffsync:abc123:region:us" = true.
Proof. repeat split; reflexivity. Qed.

Example count_after_add_and_remove :
  (count Sample.store_a None
     (add (H := bit_runtime) Sample.store_a 1
        (add (H := bit_runtime) Sample.store_a 0 Sample.w0).2).2).1 = Ok 2
  ∧ (count Sample.store_a (Some "country")
       (add (H := bit_runtime) Sample.store_a 1
          (add (H := bit_runtime) Sample.store_a 0 Sample.w0).2).2).1 = Ok 1
  ∧ (count Sample.store_a None
       (remove (H := bit_runtime) 3 Sample.store_a 0 true
          (add (H := bit_runtime) Sample.store_a 1
             (add (H := bit_runtime) Sample.store_a 0 Sample.w0).2).2).2).1 = Ok 0.
Proof. repeat split; vm_compute; reflexivity. Qed.

Lemma append_cons (c : ascii) (s p : string) :
  String c s +:+ p = String c (s +:+ p).
Proof. reflexivity. Qed.

Lemma append_nil (p : string) : "" +:+ p = p.
Proof. reflexivity. Qed.

Lemma append_assoc (a b c : string) : (a +:+ b) +:+ c = a +:+ (b +:+ c).
Proof. induction a as [|x a IH]; [done|]. by rewrite !append_cons, IH. Qed.

Lemma has_char_app (P : ascii → bool) (a b : string) :
  has_char P (a +:+ b) = has_char P a || has_char P b.
Proof.
  induction a as [|x a IH]; [done|].
  rewrite append_cons. simpl. by rewrite IH, orb_assoc.
Qed.

(** Two texts without [:] that are each followed by [:] in the same text
    are the same text. *)
Lemma split_at_colon (a b r1 r2 : string) :
  has_char (Ascii.eqb ":") a = false →
  has_char (Ascii.eqb ":") b = false →
  a +:+ ":" +:+ r1 = b +:+ ":" +:+ r2 →
  a = b.
Proof.
  revert b. induction a as [|x a IH]; intros [|y b] Ha Hb Heq.
  - done.
  - rewrite append_nil, !append_cons in Heq. injection Heq as <- _.
    simpl in Hb. done.
  - rewrite append_nil, !append_cons in Heq. injection Heq as -> _.
    simpl in Ha. done.
  - rewrite !append_cons in Heq. injection Heq as -> Heq.
    simpl in Ha, Hb. apply orb_false_iff in Ha as [_ Ha].
    apply orb_false_iff in Hb as [_ Hb]. f_equal. by apply (IH b).
Qed.

(** A pattern character without special meaning matches itself only. *)
Lemma stringmatch_literal_step (n : nat) (c : ascii) (p s : string) :
  glob_special c = false →
  stringmatch (S n) (String c p) s
  = match s with
    | "" => false
    | String c' s' => Ascii.eqb c c' && stringmatch n p s'
    end.
Proof.
  unfold glob_special. intros Hc.
  apply orb_false_iff in Hc as [Hc H4]. apply orb_false_iff in Hc as [Hc H3].
  apply orb_false_iff in Hc as [H1 H2].
  cbn [stringmatch]. rewrite H1. destruct s as [|c' s']; [done|].
  by rewrite H2, H3, H4.
Qed.

Lemma class_scan_length (n : nat) :
  ∀ p c hit, String.length p ≤ n →
    String.length (class_scan p c hit).2 ≤ String.length p.
Proof.
  induction n as [|n IH]; intros p c hit Hlen.
  - destruct p; [done|simpl in Hlen; lia].
  - destruct p as [|x p1]; [done|]. cbn [class_scan]. simpl in Hlen.
    destruct (Ascii.eqb x "\").
    { destruct p1 as [|y p2]; [simpl; lia|].
      simpl in Hlen. specialize (IH p2 c (hit || Ascii.eqb y c)).
      simpl. lia. }
    destruct (Ascii.eqb x "]"); [simpl; lia|].
    destruct p1 as [|d [|hi p3]].
    + specialize (IH "" c (hit || Ascii.eqb x c)). simpl in *. lia.
    + specialize (IH (String d "") c (hit || Ascii.eqb x c)). simpl in *. lia.
    + destruct (Ascii.eqb d "-").
      * match goal with
        | |- context [class_scan p3 c ?h] => specialize (IH p3 c h)
        end.
        simpl in *. lia.
      * specialize (IH (String d (String hi p3)) c (hit || Ascii.eqb x c)).
        simpl in *. lia.
Qed.

(** Any fuel above the lengths of the pattern and the key gives the same
    answer: [glob] does not run out. *)
Lemma stringmatch_enough (n : nat) :
  ∀ m p s,
    String.length p + String.length s < n →
    String.length p + String.length s < m →
    stringmatch n p s = stringmatch m p s.
Proof.
  induction n as [|n IH]; intros m p s Hn Hm; [lia|].
  destruct m as [|m]; [lia|].
  destruct p as [|pc p']; [done|]. cbn [stringmatch]. simpl in Hn, Hm.
  destruct (Ascii.eqb pc "*").
  { f_equal; [apply IH; lia|].
    destruct s as [|c s']; [done|]. simpl in Hn, Hm. apply IH; simpl; lia. }
  destruct s as [|c s']; [done|]. simpl in Hn, Hm.
  destruct (Ascii.eqb pc "?"); [apply IH; lia|].
  destruct (Ascii.eqb pc "[").
  { destruct p' as [|x q].
    - by simpl.
    - destruct (Ascii.eqb x "^").
      + pose proof (class_scan_length _ q c false (le_n _)) as Hq.
        destruct (class_scan q c false) as [hit rest]. simpl in *.
        f_equal. apply IH; lia.
      + pose proof (class_scan_length _ (String x q) c false (le_n _)) as Hq.
        destruct (class_scan (String x q) c false) as [hit rest]. simpl in *.
        f_equal. apply IH; lia. }
  destruct (Ascii.eqb pc "\").
  { destruct p' as [|x p'']; f_equal; apply IH; simpl in *; lia. }
  f_equal. apply IH; lia.
Qed.

Lemma glob_fuel (n : nat) (p s : string) :
  String.length p + String.length s < n → stringmatch n p s = glob p s.
Proof. intros Hn. apply stringmatch_enough; [done|lia]. Qed.

Lemma stringmatch_literal_prefix (lit : string) :
  has_char glob_special lit = false →
  ∀ fuel p s, stringmatch fuel (lit +:+ p) s = true → ∃ s', s = lit +:+ s'.
Proof.
  induction lit as [|c lit IH]; intros Hlit fuel p s Hm.
  - by exists s.
  - simpl in Hlit. apply orb_false_iff in Hlit as [Hc Hlit].
    destruct fuel as [|n]; [done|].
    rewrite append_cons, (stringmatch_literal_step _ _ _ _ Hc) in Hm.
    destruct s as [|c' s]; [done|].
    apply andb_true_iff in Hm as [Hcc Hm].
    apply Ascii.eqb_eq in Hcc as <-.
    destruct (IH Hlit _ _ _ Hm) as [s' ->]. by exists s'.
Qed.

Lemma has_char_weaken (P Q : ascii → bool) (a : string) :
  (∀ c, Q c = true → P c = true) →
  has_char P a = false → has_char Q a = false.
Proof.
  intros HPQ. induction a as [|c a IH]; [done|].
  cbn [has_char]. intros [Hc Ha]%orb_false_iff.
  rewrite (IH Ha), orb_false_r.
  destruct (Q c) eqn:HQ; [|done]. by rewrite (HPQ _ HQ) in Hc.
Qed.

Lemma plain_id_no_colon (a : string) :
  plain_id a = true → has_char (Ascii.eqb ":") a = false.
Proof.
  unfold plain_id. intros [_ Ha%negb_true_iff]%andb_true_iff.
  revert Ha. apply has_char_weaken. intros c Hc.
  rewrite Ascii.eqb_sym, Hc. apply orb_true_r.
Qed.

Lemma plain_id_no_special (a : string) :
  plain_id a = true → has_char glob_special a = false.
Proof.
  unfold plain_id. intros [_ Ha%negb_true_iff]%andb_true_iff.
  revert Ha. apply has_char_weaken. by intros c ->.
Qed.

Lemma init_store_id
    (nm a uuid4 : string) (d : backref) (inh : string → option pyattr) :
  plain_id a = true → _store_id (RedisStore_init nm (Some a) uuid4 d inh) = a.
Proof.
  unfold plain_id, truthy_str. intros [Ha _]%andb_true_iff.
  unfold RedisStore_init. cbn [_store_id]. by rewrite Ha.
Qed.

Lemma own_key_under_label (s : RedisStore) (k : string) :
  own_key s k → under_label s k.
Proof. intros (m & u & ->). by eexists. Qed.

(** Keys under the labels of two different plain store ids are different. *)
Lemma labels_disjoint (s1 s2 : RedisStore) (k : string) :
  plain_id (_store_id s1) = true →
  plain_id (_store_id s2) = true →
  _store_id s1 ≠ _store_id s2 →
  under_label s1 k → under_label s2 k → False.
Proof.
  intros H1 H2 Hne [r1 ->] [r2 Heq]. apply Hne.
  unfold _store_label in Heq. rewrite !append_assoc in Heq.
  apply (inj (String.append "diffsync:")) in Heq.
  eapply split_at_colon; [by apply plain_id_no_colon..|exact Heq].
Qed.

(** A key matched by a pattern under a plain store's label is a key under
    that label. *)
Lemma glob_under_label (s : RedisStore) (pat k : string) :
  plain_id (_store_id s) = true →
  glob (_store_label s +:+ ":" +:+ pat) k = true →
  under_label s k.
Proof.
  intros Hs Hm. unfold glob in Hm.
  assert (has_char glob_special (_store_label s +:+ ":") = false) as Hlit.
  { unfold _store_label. rewrite !has_char_app.
    by rewrite (plain_id_no_special _ Hs). }
  rewrite <- append_assoc in Hm.
  destruct (stringmatch_literal_prefix _ Hlit _ pat k Hm) as [rest ->].
  exists rest. by rewrite append_assoc.
Qed.

(** ** What the lookups read *)

Section Reads.
Context `{PyRuntime}.

Lemma returned_object_load (s : RedisStore) (v : option string) (w : World) :
  returned_object (load_object s v w) = fetch s v.
Proof.
  destruct v as [b|]; [|done]. simpl.
  destruct (loads b) as [e|o] eqn:Hl.
  - by rewrite (load_object_fail _ _ _ _ Hl).
  - rewrite (load_object_ok _ _ _ _ Hl). simpl. by rewrite lookup_insert_eq.
Qed.

Lemma get_via_key (s : RedisStore) (t : typeref) (i : identifier) (w : World) :
  get s t i w
  = match lookup_key s t i with
    | inl e => (Raise e, w)
    | inr k => load_object s (redis w !! k) w
    end.
Proof.
  destruct i as [uid|kw].
  - by destruct t.
  - destruct t as [n|c]; unfold get, lookup_key; simpl.
    + destruct (store_getattr s n) as [[c|[]]|]; try done.
      unfold bind, of_sum. by destruct (create_unique_id c kw).
    + unfold bind, of_sum. by destruct (create_unique_id c kw).
Qed.

Lemma lookup_key_own (s : RedisStore) (t : typeref) (i : identifier) (k : string) :
  lookup_key s t i = inr k → own_key s k.
Proof.
  destruct i as [uid|kw]; simpl.
  - intros [= <-]. by eexists _, _.
  - destruct t as [n|c].
    + destruct (store_getattr s n) as [[c|[]]|]; try done.
      destruct (create_unique_id c kw); [done|]. intros [= <-]. by eexists _, _.
    + destruct (create_unique_id c kw); [done|]. intros [= <-]. by eexists _, _.
Qed.

Lemma collect_cons_run {A B} (x : A) (xs : list A) (body : A → M World B) (w : World) :
  collect (x :: xs) body w
  = match body x w with
    | (Ok y, w1) =>
      match collect xs body w1 with
      | (Ok ys, w2) => (Ok (y :: ys), w2)
      | (Raise e, w2) => (Raise e, w2)
      | (Undefined, w2) => (Undefined, w2)
      end
    | (Raise e, w1) => (Raise e, w1)
    | (Undefined, w1) => (Undefined, w1)
    end.
Proof.
  simpl. unfold bind. destruct (body x w) as [[y|e|] w1]; [|done..].
  unfold ret. by destruct (collect xs body w1) as [[ys|e|] w2].
Qed.

(** The loop of [get_all] and [get_by_uids] returns what the values at its
    keys unpickle to; it leaves the service and the older objects alone. *)
Lemma collect_fetch (s : RedisStore) (keyf : string → string) (keys : list string) :
  ∀ w,
    heap w ⊆ heap (collect keys
               (λ u, let* v := gets (λ w1, redis_get (keyf u) (redis w1)) in
                     load_object s v) w).2
    ∧ redis (collect keys
               (λ u, let* v := gets (λ w1, redis_get (keyf u) (redis w1)) in
                     load_object s v) w).2 = redis w
    ∧ returned_objects (collect keys
               (λ u, let* v := gets (λ w1, redis_get (keyf u) (redis w1)) in
                     load_object s v) w)
      = fetch_all s (map (λ u, redis w !! keyf u) keys).
Proof.
  induction keys as [|u keys IH]; intros w.
  - done.
  - rewrite collect_cons_run.
    change ((let* v := gets (λ w1, redis_get (keyf u) (redis w1)) in
             load_object s v) w)
      with (load_object s (redis w !! keyf u) w).
    cbn [map fetch_all]. unfold fetch at 1.
    destruct (redis w !! keyf u) as [b|] eqn:Hv.
    2:{ by rewrite load_object_None. }
    destruct (loads b) as [e|o] eqn:Hl.
    { by rewrite (load_object_fail _ _ _ _ Hl). }
    rewrite (load_object_ok _ _ _ _ Hl).
    set (l := fresh (dom (heap w))).
    set (w1 := set_heap (insert l (set_diffsync (self_diffsync s) o)) w).
    destruct (IH w1) as (Hheap & Hredis & Hret).
    assert (heap w ⊆ heap w1) as Hw1.
    { apply insert_subseteq, fresh_heap_None. }
    assert (heap w1 !! l = Some (set_diffsync (self_diffsync s) o)) as Hl1.
    { apply lookup_insert_eq. }
    change (redis w1) with (redis w) in Hret, Hredis.
    rewrite <- Hret.
    destruct (collect keys _ w1) as [[ls| |] w2] eqn:Hrun; simpl in *.
    + split; [by etrans|]. split; [done|].
      rewrite (lookup_weaken _ _ _ _ Hl1 Hheap). simpl.
      by destruct (mapM (λ l0, heap w2 !! l0) ls).
    + split; [by etrans|]. done.
    + split; [by etrans|]. done.
Qed.

Lemma scan_iter_match (pat : string) (db : gmap string string) (k : string) :
  k ∈ scan_iter pat db → glob pat k = true ∧ is_Some (db !! k).
Proof.
  unfold scan_iter. intros Hk. apply list_elem_of_fmap in Hk as [[k' v] [-> Hk]].
  apply elem_of_map_to_list in Hk. apply map_lookup_filter_Some in Hk as [Hk Hm].
  simpl in *. by eauto.
Qed.

Lemma scan_iter_agree (pat : string) (db' db : gmap string string) :
  (∀ k, glob pat k = true → db' !! k = db !! k) →
  scan_iter pat db' = scan_iter pat db.
Proof.
  intros Hagree. unfold scan_iter. f_equal. f_equal.
  apply map_filter_strong_ext. intros k v. simpl.
  split; intros [Hm Hk]; (split; [done|]); by rewrite Hagree in * |- *.
Qed.

Lemma fetch_all_agree
    (s : RedisStore) (keyf : string → string) (keys : list string)
    (db' db : gmap string string) :
  (∀ u, u ∈ keys → db' !! keyf u = db !! keyf u) →
  fetch_all s (map (λ u, db' !! keyf u) keys)
  = fetch_all s (map (λ u, db !! keyf u) keys).
Proof.
  induction keys as [|u keys IH]; intros Hagree; [done|]. simpl.
  rewrite Hagree by left. rewrite IH; [done|].
  intros u' Hu'. apply Hagree. by right.
Qed.

(** What a store reads is decided by the service under its label. *)
Lemma lookups_agree (s : RedisStore) (w' w : World) :
  plain_id (_store_id s) = true →
  agree_under s (redis w') (redis w) →
  (∀ t i, returned_object (get s t i w') = returned_object (get s t i w))
  ∧ (∀ t, returned_objects (get_all s t w') = returned_objects (get_all s t w))
  ∧ (∀ uids t, returned_objects (get_by_uids s uids t w')
               = returned_objects (get_by_uids s uids t w))
  ∧ (∀ m, (count s m w').1 = (count s m w).1).
Proof.
  intros Hs Hagree.
  assert (∀ pat, scan_iter (_store_label s +:+ ":" +:+ pat) (redis w')
                 = scan_iter (_store_label s +:+ ":" +:+ pat) (redis w)) as Hscan.
  { intros pat. apply scan_iter_agree. intros k Hk.
    apply Hagree. by apply (glob_under_label s pat). }
  split; [|split; [|split]].
  - intros t i. rewrite !get_via_key.
    destruct (lookup_key s t i) as [e|k] eqn:Hk; [done|].
    rewrite !returned_object_load. f_equal.
    apply Hagree, own_key_under_label. by eapply lookup_key_own.
  - intros t.
    change (get_all s t w')
      with (collect
              (scan_iter (_store_label s +:+ ":" +:+ typeref_modelname t +:+ ":*")
                 (redis w'))
              (λ u, let* v := gets (λ w1, redis_get (id u) (redis w1)) in
                    load_object s v) w').
    change (get_all s t w)
      with (collect
              (scan_iter (_store_label s +:+ ":" +:+ typeref_modelname t +:+ ":*")
                 (redis w))
              (λ u, let* v := gets (λ w1, redis_get (id u) (redis w1)) in
                    load_object s v) w).
    rewrite Hscan.
    destruct (collect_fetch s id
                (scan_iter (_store_label s +:+ ":" +:+ typeref_modelname t +:+ ":*")
                   (redis w)) w') as (_ & _ & ->).
    destruct (collect_fetch s id
                (scan_iter (_store_label s +:+ ":" +:+ typeref_modelname t +:+ ":*")
                   (redis w)) w) as (_ & _ & ->).
    apply (fetch_all_agree s id). intros k Hk.
    apply scan_iter_match in Hk as [Hk _].
    apply Hagree. by apply (glob_under_label s _ _ Hs Hk).
  - intros uids t. unfold get_by_uids.
    destruct (collect_fetch s (_get_key_for_object s (typeref_modelname t)) uids w')
      as (_ & _ & ->).
    destruct (collect_fetch s (_get_key_for_object s (typeref_modelname t)) uids w)
      as (_ & _ & ->).
    apply (fetch_all_agree s (_get_key_for_object s (typeref_modelname t))).
    intros u _. apply Hagree, own_key_under_label. by eexists _, _.
  - intros m. unfold count, gets. cbn [fst]. f_equal. f_equal.
    destruct m as [m|]; [destruct (truthy (PStr m))|]; apply Hscan.
Qed.

End Reads.

(** ** Isolation of stores by label *)

#[global] Instance frame_outside_preorder (s : RedisStore) : PreOrder (frame_outside s).
Proof.
  split.
  - by intros w k Hk.
  - intros w1 w2 w3 H12 H23 k Hk. by rewrite (H23 k Hk), (H12 k Hk).
Qed.

Section Isolation.
Context `{PyRuntime}.

Lemma steps_run_ops (s : RedisStore) (fuel : nat) (ops : list store_op) :
  steps (frame_outside s) (run_ops fuel s ops).
Proof.
  assert (∀ w o, frame_outside s w (set_heap (insert (fresh (dom (heap w))) o) w))
    as Halloc by (by intros w o k Hk).
  assert (∀ w l o b, heap w !! l = Some o →
            frame_outside s w (set_heap (insert l (set_diffsync b o)) w))
    as Hset by (by intros w l o b _ k Hk).
  unfold run_ops. apply steps_for. intros op.
  apply steps_try_except; [|apply steps_ret].
  destruct op as [obj|obj|obj rc]; simpl.
  - apply steps_add; [done..|]. intros w k v Hown k' Hk'.
    simpl. unfold redis_set. apply lookup_insert_ne. by intros <-.
  - apply (steps_add s Halloc Hset). intros w k v Hown k' Hk'.
    simpl. unfold redis_set. apply lookup_insert_ne. by intros <-.
  - apply steps_remove; [done..|]. intros w k Hown k' Hk'.
    simpl. unfold redis_delete. apply lookup_delete_ne. by intros <-.
Qed.

(** C4, as amended: two stores over the same service, constructed with
    different store ids that are plain tokens (not empty, without [:] and
    without pattern characters), do not observe each other's entries:
    whatever sequence of add, update and remove one of them performs, every
    [get], [get_all], [get_by_uids] and [count] of the other returns what
    it returned before. *)
Theorem store_isolation
    (a b nmA nmB uA uB : string) (dA dB : backref)
    (inhA inhB : string → option pyattr)
    (fuel : nat) (ops : list store_op) (w : World) :
  plain_id a = true →
  plain_id b = true →
  a ≠ b →
  (∀ t i,
     returned_object
       (get (RedisStore_init nmB (Some b) uB dB inhB) t i
          (run_ops fuel (RedisStore_init nmA (Some a) uA dA inhA) ops w).2)
     = returned_object (get (RedisStore_init nmB (Some b) uB dB inhB) t i w))
  ∧ (∀ t,
       returned_objects
         (get_all (RedisStore_init nmB (Some b) uB dB inhB) t
            (run_ops fuel (RedisStore_init nmA (Some a) uA dA inhA) ops w).2)
       = returned_objects (get_all (RedisStore_init nmB (Some b) uB dB inhB) t w))
  ∧ (∀ uids t,
       returned_objects
         (get_by_uids (RedisStore_init nmB (Some b) uB dB inhB) uids t
            (run_ops fuel (RedisStore_init nmA (Some a) uA dA inhA) ops w).2)
       = returned_objects
           (get_by_uids (RedisStore_init nmB (Some b) uB dB inhB) uids t w))
  ∧ (∀ m,
       (count (RedisStore_init nmB (Some b) uB dB inhB) m
          (run_ops fuel (RedisStore_init nmA (Some a) uA dA inhA) ops w).2).1
       = (count (RedisStore_init nmB (Some b) uB dB inhB) m w).1).
Proof.
  intros Ha Hb Hab.
  set (sA := RedisStore_init nmA (Some a) uA dA inhA).
  set (sB := RedisStore_init nmB (Some b) uB dB inhB).
  assert (_store_id sA = a) as HidA by (by apply init_store_id).
  assert (_store_id sB = b) as HidB by (by apply init_store_id).
  apply lookups_agree; [by rewrite HidB|].
  intros k Hk. apply (steps_run_ops sA fuel ops w).
  intros Hown%own_key_under_label.
  apply (labels_disjoint sA sB k); by rewrite ?HidA, ?HidB.
Qed.

End Isolation.

Lemma store_isolation_witness :
  (count Sample.store_c None
     (run_ops (H := bit_runtime) 3 Sample.store_a [OpAdd 0; OpAdd 1; OpRemove 0 true]
        Sample.w0).2).1
  = (count Sample.store_c None Sample.w0).1.
Proof.
  destruct (store_isolation (H := bit_runtime)
              "abc123" "xyz789" "RedisStore" "RedisStore" "" ""
              (BAdapter Sample.owner_adapter) (BAdapter Sample.owner_adapter)
              Sample.no_attrs Sample.no_attrs
              3 [OpAdd 0; OpAdd 1; OpRemove 0 true] Sample.w0)
    as (_ & _ & _ & Hcount); [reflexivity|reflexivity|discriminate|].
  exact (Hcount None).
Defined.

(** C4, as stated, fails: the store ids [abc123] and [abc123:x] are
    different, yet after the second store adds region [us] the first one
    counts one entry where it counted none, and its [get] for the type
    name [x:region] returns the other store's record. *)
Lemma store_ids_sharing_a_prefix_leak :
  _store_id Sample.store_a ≠ _store_id Sample.store_b
  ∧ (count Sample.store_a None Sample.w0).1 = Ok 0
  ∧ (count Sample.store_a None
       (add (H := bit_runtime) Sample.store_b 0 Sample.w0).2).1 = Ok 1
  ∧ (get (H := bit_runtime) Sample.store_a (TName "x:region") (IdStr "us")
       Sample.w0).1 = Raise ObjectNotFound
  ∧ returned_object
      (get (H := bit_runtime) Sample.store_a (TName "x:region") (IdStr "us")
         (add (H := bit_runtime) Sample.store_b 0 Sample.w0).2)
    = Ok Sample.us.
Proof. repeat split; try discriminate; vm_compute; reflexivity. Qed.

(** ** Cascading remove *)

Lemma bind_ok {S A B} (c : M S A) (k : A → M S B) (st st1 : S) (a : A) :
  c st = (Ok a, st1) → bind c k st = k a st1.
Proof. intros Hc. unfold bind. by rewrite Hc. Qed.

#[global] Instance same_fields_preorder : PreOrder same_fields.
Proof.
  split.
  - intros w l o Hl. by exists o.
  - intros w1 w2 w3 H12 H23 l o Hl.
    destruct (H12 l o Hl) as (o2 & Hl2 & Hc2 & Hf2).
    destruct (H23 l o2 Hl2) as (o3 & Hl3 & Hc3 & Hf3).
    exists o3. split; [done|]. split; congruence.
Qed.




Section Cascade.
Context `{PyRuntime}.

Lemma closed_refl (s : RedisStore) (db : gmap string string) : closed s db db.
Proof. intros k v o Hk Hk'. congruence. Qed.

Lemma closed_trans (s : RedisStore) (db1 db2 db3 : gmap string string) :
  db2 ⊆ db1 → db3 ⊆ db2 → closed s db1 db2 → closed s db2 db3 → closed s db1 db3.
Proof.
  intros H21 H32 H12 H23 k v o Hk1 Hk3 Hl k' Hk'.
  destruct (db2 !! k) as [v2|] eqn:Hk2.
  - rewrite (lookup_weaken _ _ _ _ Hk2 H21) in Hk1. simplify_eq.
    by apply (H23 k v o).
  - eapply lookup_weaken_None; [|exact H32]. by apply (H12 k v o).
Qed.

#[global] Instance cascades_preorder (s : RedisStore) : PreOrder (cascades s).
Proof.
  split.
  - intros w. split; [done|]. split; [reflexivity|apply closed_refl].
  - intros w1 w2 w3 (Hs12 & Hf12 & Hc12) (Hs23 & Hf23 & Hc23).
    split; [by etrans|]. split; [by etrans|]. by eapply closed_trans.
Qed.


Lemma object_key_set_diffsync (s : RedisStore) (b : backref) (o : PyObject) :
  object_key s (set_diffsync b o) = object_key s o.
Proof. reflexivity. Qed.

Lemma child_keys_same (s : RedisStore) (o o' : PyObject) (k : string) :
  cls o' = cls o → fields o' = fields o → child_keys s o k → child_keys s o' k.
Proof.
  intros Hc Hf (T & f & v & ids & cid & HT & Hv & Hi & Hcid & ->).
  exists T, f, v, ids, cid. by rewrite Hc, Hf.
Qed.




#[global] Instance settles_preorder : PreOrder settles.
Proof.
  split.
  - intros w. split; reflexivity.
  - intros w1 w2 w3 [Hs12 Hf12] [Hs23 Hf23]. split; by etrans.
Qed.









(** The call on a stored record, up to the loops over its children. *)
Lemma remove_stored_run
    (s : RedisStore) (fuel obj : nat) (rc : bool) (o : PyObject) (w : World) :
  heap w !! obj = Some o →
  is_Some (redis w !! object_key s o) →
  remove (S fuel) s obj rc w
  = (if rc then
       for_ (_children (cls o))
         (λ '(child_type, child_fieldname),
            let* o' := deref obj in
            let* v := of_sum (getattr o' child_fieldname) in
            let* child_ids := of_sum (iterate v) in
            for_ child_ids (λ child_id,
              try_except
                (let* child_obj := get s (TName child_type) (IdStr child_id) in
                 remove fuel s child_obj rc)
                is_ObjectNotFound (ret tt)))
     else ret tt)
      (set_redis (redis_delete (object_key s o))
         (if backref_truthy (diffsync o)
          then set_heap (insert obj (set_diffsync BNone o)) w else w)).
Proof.
  intros Ho Hkey. cbn [remove].
  rewrite (bind_ok (deref obj) _ w w o) by (unfold deref; by rewrite Ho).
  rewrite (bind_ok (gets _) _ w w true).
  2:{ unfold gets, redis_exists. by rewrite bool_decide_eq_true_2. }
  cbn [negb].
  rewrite (bind_ok _ _ w
             (if backref_truthy (diffsync o)
              then set_heap (insert obj (set_diffsync BNone o)) w else w) tt).
  2:{ destruct (backref_truthy (diffsync o)); [|done].
      unfold setattr_diffsync, bind, deref, modify. by rewrite Ho. }
  reflexivity.
Qed.







End Cascade.




(** * Further properties of the store *)

Section StoreMore.
Context `{PyRuntime}.

(** X1: [remove] of a record that has no entry raises NotFound, with or
    without the recursive flag, and changes nothing: the service is as
    before and the record passed in keeps its back-reference. *)
Theorem remove_unstored_raises
    (s : RedisStore) (fuel obj : nat) (rc : bool) (o : PyObject) (w : World) :
  heap w !! obj = Some o →
  redis w !! object_key s o = None →
  remove (S fuel) s obj rc w = (Raise ObjectNotFound, w).
Proof.
  intros Ho Hkey. cbn [remove].
  rewrite (bind_ok (deref obj) _ w w o) by (unfold deref; by rewrite Ho).
  rewrite (bind_ok (gets _) _ w w false); [done|].
  unfold gets, redis_exists. rewrite bool_decide_eq_false_2; [done|].
  intros [v Hv]. unfold object_key in Hkey. congruence.
Qed.

(** X2: [remove] without the recursive flag, on a stored record, returns
    normally, deletes exactly the record's own entry (every other entry,
    the entries of its children included, stays as it was), and clears the
    back-reference of the record passed in when it was truthy; no other
    object changes. *)
Theorem remove_without_children
    (s : RedisStore) (fuel obj : nat) (o : PyObject) (w : World) :
  heap w !! obj = Some o →
  is_Some (redis w !! object_key s o) →
  remove (S fuel) s obj false w
  = (Ok tt, {| heap := detach obj o (heap w);
               redis := delete (object_key s o) (redis w) |})
  ∧ (∀ k, k ≠ object_key s o →
       delete (object_key s o) (redis w) !! k = redis w !! k)
  ∧ (∀ l, l ≠ obj → detach obj o (heap w) !! l = heap w !! l)
  ∧ (∃ o', detach obj o (heap w) !! obj = Some o'
           ∧ cls o' = cls o ∧ fields o' = fields o
           ∧ backref_truthy (diffsync o') = false
           ∧ (backref_truthy (diffsync o) = false → o' = o)).
Proof.
  intros Ho Hkey. split; [|split; [|split]].
  - rewrite (remove_stored_run _ _ _ _ _ _ Ho Hkey). unfold detach.
    by destruct (backref_truthy (diffsync o)).
  - intros k Hk. by rewrite lookup_delete_ne.
  - intros l Hl. unfold detach.
    destruct (backref_truthy (diffsync o)); [|done]. by rewrite lookup_insert_ne.
  - unfold detach. destruct (backref_truthy (diffsync o)) eqn:Ht.
    + exists (set_diffsync BNone o). rewrite lookup_insert_eq. by repeat split.
    + exists o. by repeat split.
Qed.

(** X3: for a record whose class declares no children, the recursive flag
    makes no difference to [remove]. *)
Theorem remove_childless_ignores_flag
    (s : RedisStore) (fuel obj : nat) (o : PyObject) (w : World) :
  heap w !! obj = Some o →
  _children (cls o) = [] →
  remove fuel s obj true w = remove fuel s obj false w.
Proof.
  intros Ho Hch. destruct fuel as [|fuel]; [done|].
  destruct (redis w !! object_key s o) as [v|] eqn:Hkey.
  - rewrite !(remove_stored_run _ _ _ _ _ _ Ho (ex_intro _ v Hkey)).
    by rewrite Hch.
  - by rewrite !(remove_unstored_raises _ _ _ _ _ _ Ho Hkey).
Qed.

(** X4: [add] followed by [remove] of the same record: the remove returns
    normally, a following [get] for the record raises NotFound, and when
    the record's key was free before the [add] the service is back to what
    it was. *)
Theorem add_then_remove
    (s : RedisStore) (fuel obj : nat) (o : PyObject) (t : typeref) (w : World) :
  heap w !! obj = Some o →
  typeref_modelname t = get_type (cls o) →
  (remove (S fuel) s obj false (add s obj w).2).1 = Ok tt
  ∧ (get s t (IdStr (get_unique_id o))
       (remove (S fuel) s obj false (add s obj w).2).2).1 = Raise ObjectNotFound
  ∧ (redis w !! object_key s o = None →
       redis (remove (S fuel) s obj false (add s obj w).2).2 = redis w).
Proof.
  intros Ho Ht. rewrite (add_run _ _ _ _ Ho). cbn [snd].
  set (w1 := {| heap := _; redis := _ |}).
  assert (heap w1 !! obj = Some (set_diffsync BFalse o)) as Ho1.
  { unfold w1. simpl. apply lookup_insert_eq. }
  assert (is_Some (redis w1 !! object_key s (set_diffsync BFalse o))) as Hkey1.
  { unfold w1, object_key. simpl. rewrite lookup_insert_eq. by eexists. }
  destruct (remove_without_children s fuel obj _ w1 Ho1 Hkey1) as (-> & _).
  rewrite object_key_set_diffsync.
  cbn [fst snd]. split; [done|]. split.
  - rewrite get_by_uid, Ht. cbn [redis]. unfold object_key.
    rewrite lookup_delete_eq. by rewrite load_object_None.
  - intros Hfree. unfold w1, object_key in *. cbn [redis].
    rewrite delete_insert_eq. by apply delete_id.
Qed.

(** X5: the lookups only read: [get], [get_all] and [get_by_uids] leave the
    service as it is and leave every object that was on the heap as it is
    (they only create the objects they return), whatever their outcome; and
    [count] changes nothing at all. *)
Theorem lookups_only_read (s : RedisStore) (w : World) :
  (∀ t i, redis (get s t i w).2 = redis w ∧ heap w ⊆ heap (get s t i w).2)
  ∧ (∀ t, redis (get_all s t w).2 = redis w ∧ heap w ⊆ heap (get_all s t w).2)
  ∧ (∀ uids t, redis (get_by_uids s uids t w).2 = redis w
               ∧ heap w ⊆ heap (get_by_uids s uids t w).2)
  ∧ (∀ m, (count s m w).2 = w).
Proof.
  split; [|split; [|split]].
  - intros t i. rewrite get_via_key.
    destruct (lookup_key s t i) as [e|k]; [done|].
    destruct (redis w !! k) as [b|]; [|by rewrite load_object_None].
    destruct (loads b) as [e|o] eqn:Hl.
    + by rewrite (load_object_fail _ _ _ _ Hl).
    + rewrite (load_object_ok _ _ _ _ Hl). split; [done|].
      apply insert_subseteq, fresh_heap_None.
  - intros t.
    destruct (collect_fetch s id
                (scan_iter (_store_label s +:+ ":" +:+ typeref_modelname t +:+ ":*")
                   (redis w)) w) as (Hheap & Hredis & _).
    split; [exact Hredis|exact Hheap].
  - intros uids t.
    destruct (collect_fetch s (_get_key_for_object s (typeref_modelname t)) uids w)
      as (Hheap & Hredis & _).
    split; [exact Hredis|exact Hheap].
  - done.
Qed.

(** X6: for model names without [:], a store's key derivation is
    one-to-one: two records of the store share a key only when they have
    the same model name and the same unique id. *)
Theorem key_for_object_injective
    (s : RedisStore) (m1 m2 u1 u2 : string) :
  has_char (Ascii.eqb ":") m1 = false →
  has_char (Ascii.eqb ":") m2 = false →
  _get_key_for_object s m1 u1 = _get_key_for_object s m2 u2 →
  m1 = m2 ∧ u1 = u2.
Proof.
  intros H1 H2 Heq. unfold _get_key_for_object in Heq.
  apply (inj (String.append (_store_label s))) in Heq.
  apply (inj (String.append ":")) in Heq.
  assert (m1 = m2) as -> by (by eapply split_at_colon).
  split; [done|].
  apply (inj (String.append m2)) in Heq. by apply (inj (String.append ":")) in Heq.
Qed.

End StoreMore.

Lemma remove_unstored_raises_witness :
  remove (H := bit_runtime) 1 Sample.store_a 0 true Sample.w0
  = (Raise ObjectNotFound, Sample.w0).
Proof.
  apply (remove_unstored_raises (H := bit_runtime) Sample.store_a 0 0 true Sample.us);
    reflexivity.
Defined.

Lemma remove_without_children_witness :
  (remove (H := bit_runtime) 1 Sample.store_a 0 false
     (add (H := bit_runtime) Sample.store_a 0 Sample.w0).2).1 = Ok tt.
Proof.
  destruct (remove_without_children (H := bit_runtime) Sample.store_a 0 0
              (set_diffsync BFalse Sample.us)
              (add (H := bit_runtime) Sample.store_a 0 Sample.w0).2)
    as (Hrun & _).
  - vm_compute. reflexivity.
  - vm_compute. by eexists.
  - by rewrite Hrun.
Defined.

Lemma remove_childless_ignores_flag_witness :
  remove (H := bit_runtime) 2 Sample.store_a 1 true Sample.w0
  = remove (H := bit_runtime) 2 Sample.store_a 1 false Sample.w0.
Proof.
  apply (remove_childless_ignores_flag (H := bit_runtime) _ _ _ Sample.usa);
    reflexivity.
Defined.

Lemma add_then_remove_witness :
  redis (remove (H := bit_runtime) 1 Sample.store_a 0 false
           (add (H := bit_runtime) Sample.store_a 0 Sample.w0).2).2
  = redis Sample.w0.
Proof.
  destruct (add_then_remove (H := bit_runtime) Sample.store_a 0 0 Sample.us
              (TName "region") Sample.w0) as (_ & _ & Hback);
    [reflexivity|reflexivity|].
  apply Hback. reflexivity.
Defined.

Lemma key_for_object_injective_witness :
  "region" = "region" ∧ "us" = "us".
Proof.
  apply (key_for_object_injective Sample.store_a "region" "region" "us" "us");
    reflexivity.
Defined.

Section StoreLookups.
Context `{PyRuntime}.

Lemma identifier_values_fields (keys : list string) (kw : gmap string pyval) :
  (∀ k, k ∈ keys → is_Some (kw !! k)) →
  identifier_values keys kw = inr (map (λ k, py_str (kw !!! k)) keys).
Proof.
  induction keys as [|k keys IH]; intros Hall; [done|]. simpl.
  destruct (Hall k) as [v Hv]; [by left|]. rewrite Hv.
  rewrite IH by (intros k' Hk'; apply Hall; by right).
  by rewrite (lookup_total_correct _ _ _ Hv).
Qed.

Lemma identifier_values_missing (keys : list string) (kw : gmap string pyval) (k : string) :
  k ∈ keys → kw !! k = None → ∃ k', identifier_values keys kw = inl (KeyError k').
Proof.
  induction keys as [|k0 keys IH]; intros Hin Hk; [by apply elem_of_nil in Hin|].
  simpl. destruct (kw !! k0) as [v|] eqn:Hk0; [|by eexists].
  apply elem_of_cons in Hin as [->|Hin]; [congruence|].
  destruct (IH Hin Hk) as [k' ->]. by eexists.
Qed.

(** X7: [get] with a record class (or instance) and a mapping of
    identifier fields reads the same entry as [get] with the unique id the
    class composes from the mapping; when the mapping lacks a declared
    identifier it raises [KeyError] without touching anything; and after
    [add] of a record, [get] with the record's class and the record's own
    fields as the mapping returns the record. *)
Theorem get_by_identifier_mapping
    (s : RedisStore) (c : ModelClass) (kw : gmap string pyval) (w : World) :
  (∀ uid, create_unique_id c kw = inr uid →
     get s (TModel c) (IdMapping kw) w = get s (TModel c) (IdStr uid) w)
  ∧ (∀ k, k ∈ _identifiers c → kw !! k = None →
       ∃ k', get s (TModel c) (IdMapping kw) w = (Raise (KeyError k'), w))
  ∧ (∀ obj o, heap w !! obj = Some o →
       (∀ k, k ∈ _identifiers (cls o) → is_Some (fields o !! k)) →
       returned_object
         (get s (TModel (cls o)) (IdMapping (fields o)) (add s obj w).2)
       = Ok (set_diffsync (self_diffsync s) o)).
Proof.
  split; [|split].
  - intros uid Huid. rewrite !get_via_key. simpl. by rewrite Huid.
  - intros k Hk Hnone. rewrite get_via_key. simpl. unfold create_unique_id.
    destruct (identifier_values_missing _ _ _ Hk Hnone) as [k' ->]. by exists k'.
  - intros obj o Ho Hids.
    assert (create_unique_id (cls o) (fields o) = inr (get_unique_id o)) as Huid.
    { unfold create_unique_id. by rewrite (identifier_values_fields _ _ Hids). }
    rewrite get_via_key. simpl. rewrite Huid.
    rewrite (add_run _ _ _ _ Ho). cbn [snd redis]. rewrite lookup_insert_eq.
    by rewrite returned_object_load; simpl; rewrite loads_dumps.
Qed.

(** [add] of a record that differs from [o] in its back-reference only. *)
Lemma add_run_same (s : RedisStore) (obj : nat) (o o' : PyObject) (w : World) :
  heap w !! obj = Some o' →
  cls o' = cls o →
  fields o' = fields o →
  add s obj w
  = (Ok tt,
     {| heap := <[obj := set_diffsync BFalse o]> (heap w);
        redis := <[_get_key_for_object s (get_type (cls o)) (get_unique_id o)
                   := dumps (set_diffsync BFalse o)]> (redis w) |}).
Proof.
  intros Ho' Hcls Hfields. rewrite (add_run _ _ _ _ Ho').
  destruct o, o'. simpl in *. by subst.
Qed.

(** X8: the last write wins: when two records have the same key, after
    [add] of the first and [add] (or [update]) of the second, [get] returns
    the second, and the service holds what a single [add] of the second
    would have left. *)
Theorem add_overwrites
    (s : RedisStore) (obj1 obj2 : nat) (o1 o2 : PyObject) (t : typeref) (w : World) :
  heap w !! obj1 = Some o1 →
  heap w !! obj2 = Some o2 →
  object_key s o1 = object_key s o2 →
  typeref_modelname t = get_type (cls o2) →
  returned_object
    (get s t (IdStr (get_unique_id o2)) (add s obj2 (add s obj1 w).2).2)
  = Ok (set_diffsync (self_diffsync s) o2)
  ∧ redis (add s obj2 (add s obj1 w).2).2 = redis (add s obj2 w).2
  ∧ redis (update s obj2 (add s obj1 w).2).2 = redis (add s obj2 w).2.
Proof.
  intros Ho1 Ho2 Hkey Ht. change (update s obj2) with (add s obj2).
  rewrite (add_run _ _ _ _ Ho1). cbn [snd].
  set (w1 := {| heap := _; redis := _ |}).
  assert (∃ o2', heap w1 !! obj2 = Some o2'
                 ∧ cls o2' = cls o2 ∧ fields o2' = fields o2)
    as (o2' & Ho2' & Hcls & Hfields).
  { unfold w1. simpl. destruct (decide (obj2 = obj1)) as [->|Hne].
    - rewrite lookup_insert_eq. rewrite Ho1 in Ho2. injection Ho2 as ->.
      by eexists.
    - rewrite lookup_insert_ne by done. by exists o2. }
  rewrite (add_run_same _ _ _ _ _ Ho2' Hcls Hfields), (add_run _ _ _ _ Ho2).
  cbn [snd redis].
  assert (redis w1 = <[object_key s o2 := dumps (set_diffsync BFalse o1)]> (redis w))
    as Hw1 by (unfold w1; simpl; by rewrite <- Hkey).
  split; [|split].
  - rewrite get_by_uid, Ht. cbn [redis]. rewrite lookup_insert_eq.
    by rewrite returned_object_load; simpl; rewrite loads_dumps.
  - rewrite Hw1. unfold object_key. by rewrite insert_insert_eq.
  - rewrite Hw1. unfold object_key. by rewrite insert_insert_eq.
Qed.

(** X9: [add] touches one entry only: every other key of the service
    holds what it held, so every [get] that reads another key returns what
    it returned before. *)
Theorem add_leaves_other_keys
    (s : RedisStore) (obj : nat) (o : PyObject) (w : World) :
  heap w !! obj = Some o →
  (∀ k, k ≠ object_key s o → redis (add s obj w).2 !! k = redis w !! k)
  ∧ (∀ t uid,
       _get_key_for_object s (typeref_modelname t) uid ≠ object_key s o →
       returned_object (get s t (IdStr uid) (add s obj w).2)
       = returned_object (get s t (IdStr uid) w)).
Proof.
  intros Ho. rewrite (add_run _ _ _ _ Ho). cbn [snd redis].
  assert (∀ k, k ≠ object_key s o →
            <[object_key s o := dumps (set_diffsync BFalse o)]> (redis w) !! k
            = redis w !! k) as Hother.
  { intros k Hk. by rewrite lookup_insert_ne. }
  split; [exact Hother|].
  intros t uid Hk. rewrite !get_by_uid, !returned_object_load. cbn [redis].
  f_equal. by apply Hother.
Qed.

Lemma fetch_all_Forall2 (s : RedisStore) (vs : list (option string)) (os : list PyObject) :
  fetch_all s vs = Ok os → Forall2 (λ v o, fetch s v = Ok o) vs os.
Proof.
  revert os. induction vs as [|v vs IH]; intros os; simpl.
  - intros [= <-]. constructor.
  - destruct (fetch s v) as [o| |] eqn:Hv; [|done..].
    destruct (fetch_all s vs) as [os'| |]; [|done..].
    intros [= <-]. constructor; [done|by apply IH].
Qed.

(** X10: when [get_by_uids] returns, it returns one record per requested
    id, in the order of the request: the i-th record is what [get] returns
    for the i-th id. *)
Theorem get_by_uids_in_order
    (s : RedisStore) (uids : list string) (t : typeref) (w : World)
    (os : list PyObject) :
  returned_objects (get_by_uids s uids t w) = Ok os →
  length os = length uids
  ∧ Forall2 (λ uid o, returned_object (get s t (IdStr uid) w) = Ok o) uids os.
Proof.
  unfold get_by_uids.
  destruct (collect_fetch s (_get_key_for_object s (typeref_modelname t)) uids w)
    as (_ & _ & ->).
  intros Hf%fetch_all_Forall2. split.
  - apply Forall2_length in Hf. by rewrite length_map in Hf.
  - apply Forall2_fmap_l in Hf. eapply Forall2_impl; [exact Hf|].
    intros uid o Hfetch. simpl in Hfetch.
    by rewrite get_by_uid, returned_object_load.
Qed.

(** X11: when [get_all] for a non-empty model name returns, the number of
    records it returns is what [count] gives for that model name; and every
    record returned is what the service holds at a key the scan matched. *)
Theorem get_all_agrees_with_count
    (s : RedisStore) (m : string) (w : World) (os : list PyObject) :
  truthy (PStr m) = true →
  returned_objects (get_all s (TName m) w) = Ok os →
  (count s (Some m) w).1 = Ok (length os)
  ∧ Forall2 (λ k o, glob (_store_label s +:+ ":" +:+ m +:+ ":*") k = true
                    ∧ fetch s (redis w !! k) = Ok o)
      (scan_iter (_store_label s +:+ ":" +:+ m +:+ ":*") (redis w)) os.
Proof.
  intros Hm.
  change (get_all s (TName m) w)
    with (collect (scan_iter (_store_label s +:+ ":" +:+ m +:+ ":*") (redis w))
            (λ u, let* v := gets (λ w1, redis_get (id u) (redis w1)) in
                  load_object s v) w).
  destruct (collect_fetch s id
              (scan_iter (_store_label s +:+ ":" +:+ m +:+ ":*") (redis w)) w)
    as (_ & _ & ->).
  intros Hf%fetch_all_Forall2. apply Forall2_fmap_l in Hf. split.
  - unfold count, gets. rewrite Hm. cbn [fst]. f_equal.
    by apply Forall2_length in Hf.
  - apply Forall2_same_length_lookup. split; [by eapply Forall2_length|].
    intros i k o Hk Ho. split.
    + apply (scan_iter_match _ (redis w)). by eapply list_elem_of_lookup_2.
    + by apply (Forall2_lookup_lr _ _ _ _ _ _ Hf Hk Ho).
Qed.

End StoreLookups.

Lemma get_by_identifier_mapping_witness :
  get (H := bit_runtime) Sample.store_a (TModel Example3.Region)
    (IdMapping {[ "slug" := PStr "us" ]}) Sample.w0
  = get (H := bit_runtime) Sample.store_a (TModel Example3.Region) (IdStr "us") Sample.w0.
Proof.
  destruct (get_by_identifier_mapping (H := bit_runtime) Sample.store_a
              Example3.Region {[ "slug" := PStr "us" ]} Sample.w0) as (Hsame & _).
  apply Hsame. reflexivity.
Defined.

Lemma add_overwrites_witness :
  redis (add (H := bit_runtime) Sample.store_a 0
           (add (H := bit_runtime) Sample.store_a 0 Sample.w0).2).2
  = redis (add (H := bit_runtime) Sample.store_a 0 Sample.w0).2.
Proof.
  destruct (add_overwrites (H := bit_runtime) Sample.store_a 0 0 Sample.us Sample.us
              (TName "region") Sample.w0) as (_ & Hredis & _);
    [reflexivity..|].
  exact Hredis.
Defined.

Lemma add_leaves_other_keys_witness :
  redis (add (H := bit_runtime) Sample.store_a 0 Sample.w0).2
    !! _get_key_for_object Sample.store_a "country" "usa"
  = redis Sample.w0 !! _get_key_for_object Sample.store_a "country" "usa".
Proof.
  destruct (add_leaves_other_keys (H := bit_runtime) Sample.store_a 0 Sample.us
              Sample.w0) as (Hother & _); [reflexivity|].
  apply Hother. vm_compute. discriminate.
Defined.

Lemma get_by_uids_in_order_witness :
  length [Sample.us] = length ["us"].
Proof.
  destruct (get_by_uids_in_order (H := bit_runtime) Sample.store_a ["us"]
              (TName "region")
              (add (H := bit_runtime) Sample.store_a 0 Sample.w0).2 [Sample.us])
    as (Hlen & _); [vm_compute; reflexivity|].
  exact Hlen.
Defined.

Lemma get_all_agrees_with_count_witness :
  (count Sample.store_a (Some "region")
     (add (H := bit_runtime) Sample.store_a 0 Sample.w0).2).1
  = Ok (length [Sample.us]).
Proof.
  destruct (get_all_agrees_with_count (H := bit_runtime) Sample.store_a "region"
              (add (H := bit_runtime) Sample.store_a 0 Sample.w0).2 [Sample.us])
    as (Hcount & _); [reflexivity|vm_compute; reflexivity|].
  exact Hcount.
Defined.

(** * Counting *)

Lemma length_append (a b : string) :
  String.length (a +:+ b) = String.length a + String.length b.
Proof. induction a as [|c a IH]; [done|]. rewrite append_cons. simpl. by rewrite IH. Qed.

Lemma stringmatch_star_all (s : string) :
  ∀ n, String.length s + 1 < n → stringmatch n "*" s = true.
Proof.
  induction s as [|c s IH]; intros n Hn.
  - destruct n as [|[|n]]; [simpl in Hn; lia..|]. reflexivity.
  - destruct n as [|n]; [lia|]. cbn [stringmatch]. simpl in Hn.
    change (Ascii.eqb "*" "*") with true. cbn iota.
    rewrite (IH n) by lia. apply orb_true_r.
Qed.

(** A pattern made of plain characters and a final [*] matches every key
    that starts with those characters. *)
Lemma stringmatch_literal_star (lit s : string) :
  has_char glob_special lit = false →
  ∀ n, String.length lit + String.length lit + String.length s + 1 < n →
    stringmatch n (lit +:+ "*") (lit +:+ s) = true.
Proof.
  intros Hlit. induction lit as [|c lit IH]; intros n Hn.
  - rewrite !append_nil. apply stringmatch_star_all. simpl in Hn. lia.
  - simpl in Hlit. apply orb_false_iff in Hlit as [Hc Hlit].
    destruct n as [|n]; [lia|]. simpl in Hn.
    rewrite !append_cons, (stringmatch_literal_step _ _ _ _ Hc).
    rewrite Ascii.eqb_refl. simpl. apply IH; [done|lia].
Qed.

Lemma glob_literal_star (lit s : string) :
  has_char glob_special lit = false → glob (lit +:+ "*") (lit +:+ s) = true.
Proof.
  intros Hlit. unfold glob. apply stringmatch_literal_star; [done|].
  rewrite !length_append. simpl. lia.
Qed.

(** The whole-store pattern of a store with a plain id matches every key
    the store derives. *)
Lemma whole_store_pattern_matches (s : RedisStore) (k : string) :
  plain_id (_store_id s) = true →
  under_label s k →
  glob (_store_label s +:+ ":*") k = true.
Proof.
  intros Hs [rest ->].
  change (_store_label s +:+ ":*") with (_store_label s +:+ ":" +:+ "*").
  rewrite <- !append_assoc. apply glob_literal_star.
  unfold _store_label. rewrite !has_char_app.
  by rewrite (plain_id_no_special _ Hs).
Qed.

Lemma length_scan_iter (pat : string) (db : gmap string string) :
  length (scan_iter pat db)
  = size (filter (λ kv : string * string, glob pat kv.1 = true) db).
Proof. unfold scan_iter. by rewrite length_fmap, length_map_to_list. Qed.

Section Counting.
Context `{PyRuntime}.

(** X12: for a store with a plain id, [count] without filter follows the
    store's own writes: [add] of a record whose key is free makes it one
    more, [add] on a key that is taken leaves it as it is, and [remove] of
    a stored record (without the recursive flag) makes it one less. *)
Theorem count_follows_writes
    (s : RedisStore) (fuel obj : nat) (o : PyObject) (w : World) :
  plain_id (_store_id s) = true →
  heap w !! obj = Some o →
  ∃ n, (count s None w).1 = Ok n
    ∧ (redis w !! object_key s o = None →
         (count s None (add s obj w).2).1 = Ok (S n))
    ∧ (is_Some (redis w !! object_key s o) →
         (count s None (add s obj w).2).1 = Ok n
         ∧ (count s None (remove (S fuel) s obj false w).2).1 = Ok (pred n)
         ∧ 0 < n).
Proof.
  intros Hs Ho.
  set (P := λ kv : string * string, glob (_store_label s +:+ ":*") kv.1 = true).
  assert (∀ v, P (object_key s o, v)) as HP.
  { intros v. unfold P. simpl. apply whole_store_pattern_matches; [done|].
    apply own_key_under_label. by eexists _, _. }
  exists (size (filter P (redis w))).
  unfold count, gets. cbn [fst]. rewrite !length_scan_iter. fold P.
  split; [done|].
  rewrite (add_run _ _ _ _ Ho). cbn [snd redis]. fold (object_key s o).
  rewrite map_filter_insert_True by apply HP. rewrite map_size_insert.
  split.
  - intros Hfree. f_equal.
    rewrite (proj2 (map_lookup_filter_None _ _ _)); [done|]. by left.
  - intros [v Hv].
    assert (filter P (redis w) !! object_key s o = Some v) as Hfv.
    { apply map_lookup_filter_Some. split; [done|apply HP]. }
    rewrite Hfv. split; [done|].
    destruct (remove_without_children s fuel obj o w Ho (ex_intro _ v Hv)) as (-> & _).
    cbn [snd redis]. rewrite map_filter_delete.
    rewrite map_size_delete_Some by (by exists v). split; [done|].
    assert (size (filter P (redis w)) ≠ 0); [|lia].
    apply (map_size_ne_0_lookup_2 _ (object_key s o)). by exists v.
Qed.

(** X13: a store with a plain id whose label has no key in the service is
    empty: [count] gives zero, with or without a model name, and [get_all]
    returns the empty list for every type, whatever other stores hold. *)
Theorem unused_label_is_empty (s : RedisStore) (w : World) :
  plain_id (_store_id s) = true →
  (∀ k, under_label s k → redis w !! k = None) →
  (∀ m, count s m w = (Ok 0, w))
  ∧ (∀ t, get_all s t w = (Ok [], w)).
Proof.
  intros Hs Hnone.
  assert (∀ pat, scan_iter (_store_label s +:+ ":" +:+ pat) (redis w) = []) as Hscan.
  { intros pat. unfold scan_iter.
    assert (filter (λ kv : string * string,
                      glob (_store_label s +:+ ":" +:+ pat) kv.1 = true) (redis w)
            = ∅) as ->; [|by rewrite map_to_list_empty].
    apply map_empty. intros k. apply map_lookup_filter_None_2.
    destruct (glob (_store_label s +:+ ":" +:+ pat) k) eqn:Hm.
    - left. apply Hnone. by apply (glob_under_label s pat).
    - right. intros v _. simpl. congruence. }
  split.
  - intros m. unfold count, gets.
    assert (∀ pat, length (scan_iter (_store_label s +:+ ":" +:+ pat) (redis w)) = 0)
      as Hlen by (intros pat; by rewrite Hscan).
    destruct m as [m|]; [destruct (truthy (PStr m))|]; f_equal; f_equal; apply Hlen.
  - intros t. unfold get_all, bind, gets. by rewrite Hscan.
Qed.

End Counting.

Lemma count_follows_writes_witness :
  (count Sample.store_a None (add (H := bit_runtime) Sample.store_a 0 Sample.w0).2).1
  = Ok 1.
Proof.
  destruct (count_follows_writes (H := bit_runtime) Sample.store_a 0 0 Sample.us
              Sample.w0) as (n & Hn & Hadd & _); [reflexivity|reflexivity|].
  injection Hn as <-. apply Hadd. reflexivity.
Defined.

Lemma unused_label_is_empty_witness :
  get_all (H := bit_runtime) Sample.store_c (TName "region")
    (add (H := bit_runtime) Sample.store_a 0 Sample.w0).2
  = (Ok [], (add (H := bit_runtime) Sample.store_a 0 Sample.w0).2).
Proof.
  destruct (unused_label_is_empty (H := bit_runtime) Sample.store_c
              (add (H := bit_runtime) Sample.store_a 0 Sample.w0).2) as (_ & Hall).
  - reflexivity.
  - intros k Hk.
    destruct (add_leaves_other_keys (H := bit_runtime) Sample.store_a 0 Sample.us
                Sample.w0) as (Hother & _); [reflexivity|].
    rewrite Hother; [reflexivity|].
    intros ->. apply (labels_disjoint Sample.store_a Sample.store_c
                        (object_key (H := bit_runtime) Sample.store_a Sample.us));
      [reflexivity|reflexivity|discriminate| |exact Hk].
    apply own_key_under_label. by eexists _, _.
  - apply Hall.
Defined.

(** * Further properties of the Nautobot adapter *)

Lemma lookup_put_if_eq (src dst : string) (f : pyval → json)
    (attrs : gmap string pyval) (data : gmap string json) :
  data !! dst = None → put_if src dst f attrs data !! dst = f <$> attrs !! src.
Proof.
  intros Hd. unfold put_if. destruct (attrs !! src); simpl; [|done].
  apply lookup_insert_eq.
Qed.

Lemma lookup_put_if_ne (src dst : string) (f : pyval → json)
    (attrs : gmap string pyval) (data : gmap string json) (k : string) :
  k ≠ dst → put_if src dst f attrs data !! k = data !! k.
Proof.
  intros Hk. unfold put_if. destruct (attrs !! src); [|done].
  by rewrite lookup_insert_ne.
Qed.

Lemma site_patch_data_ok (attrs : gmap string pyval) :
  site_body_ok attrs (site_patch_data attrs).
Proof.
  unfold site_body_ok, site_patch_data.
  repeat split; intros;
    repeat first
      [ rewrite lookup_put_if_ne by done
      | rewrite lookup_put_if_eq;
          [done|repeat (rewrite lookup_put_if_ne by done); apply lookup_empty]
      | apply lookup_empty ].
Qed.

Section NautobotMore.
Context `{PyRuntime}.

(** One guarded assignment of an update body. *)
Lemma stage_run (src dst : string) (attrs : gmap string pyval)
    (data : gmap string json) (w : NWorld) :
  (if bool_decide (is_Some (attrs !! src)) then
     let* v := of_sum (item attrs src) in
     ret (<[dst := JVal v]> data)
   else ret data) w
  = (Ok (put_if src dst JVal attrs data), w).
Proof.
  unfold put_if, item, bind, of_sum. by destruct (attrs !! src).
Qed.

Lemma region_stage_run (attrs : gmap string pyval) (data : gmap string json) (w : NWorld) :
  (if bool_decide (is_Some (attrs !! "region_name")) then
     let* region_name := of_sum (item attrs "region_name") in
     if truthy region_name then
       let* region_name := of_sum (item attrs "region_name") in
       ret (<["region" := JObj (<["name" := region_name]> ∅)]> data)
     else ret (<["region" := JVal PNone]> data)
   else ret data) w
  = (Ok (put_if "region_name" "region" region_ref attrs data), w).
Proof.
  unfold put_if, region_ref, item, bind, of_sum.
  destruct (attrs !! "region_name") as [v|] eqn:Hv; [|done]. simpl.
  by destruct (truthy v).
Qed.

(** The site update, once the body is built. *)
Lemma site_update_run
    (d : NautobotRemote.t) (self : nat) (attrs : gmap string pyval) (w : NWorld) :
  SiteNautobotModel.update d self attrs w
  = (let* o := nderef self in
     let* diffsync := owner d o in
     let* pk := of_sum (getattr o "pk") in
     NautobotRemote.patch diffsync ("/api/dcim/sites/" +:+ py_str pk +:+ "/")
       (site_patch_data attrs) ;;
     base_update self attrs) w.
Proof.
  unfold SiteNautobotModel.update, site_patch_data.
  rewrite (bind_ok _ _ _ _ _ (stage_run "slug" "slug" attrs _ w)).
  rewrite (bind_ok _ _ _ _ _ (stage_run "description" "description" attrs _ w)).
  rewrite (bind_ok _ _ _ _ _ (stage_run "status_slug" "status" attrs _ w)).
  rewrite (bind_ok _ _ _ _ _ (region_stage_run attrs _ w)).
  rewrite (bind_ok _ _ _ _ _ (stage_run "latitude" "latitude" attrs _ w)).
  by rewrite (bind_ok _ _ _ _ _ (stage_run "longitude" "longitude" attrs _ w)).
Qed.

(** X14: a site update sends one PATCH to the record's own endpoint whose
    body holds exactly the changed attributes, under their remote names:
    [status_slug] goes out as [status], [region_name] as [region] (an
    object with the region's name, or null when the name is cleared), and
    attributes absent from the change set are left out; with only
    [status_slug] in the change set the body is exactly [{status: value}]. *)
Theorem site_update_patch_body
    (d : NautobotRemote.t) (self : nat) (attrs : gmap string pyval) (w : NWorld)
    (o : PyObject) (a : Adapter) (pk : pyval) :
  objects w !! self = Some o →
  diffsync o = BAdapter a →
  fields o !! "pk" = Some pk →
  (∃ rest,
     events (SiteNautobotModel.update d self attrs w).2
     = events w ++
       Sent {| method := PATCH;
               target := NautobotRemote.url d +:+ "/api/dcim/sites/" +:+ py_str pk +:+ "/";
               req_headers := NautobotRemote.headers d;
               json_body := Some (site_patch_data attrs) |} :: rest)
  ∧ site_body_ok attrs (site_patch_data attrs)
  ∧ (∀ v, attrs = {[ "status_slug" := v ]} →
       site_patch_data attrs = {[ "status" := JVal v ]})
  ∧ (∀ v, attrs !! "region_name" = Some v → truthy v = false →
       site_patch_data attrs !! "region" = Some (JVal PNone)).
Proof.
  intros Ho Ha Hpk. split; [|split; [apply site_patch_data_ok|split]].
  - rewrite site_update_run.
    unfold NautobotRemote.patch, NautobotRemote.send, NautobotRemote.raise_for_status,
      base_update, owner, nderef, bind, of_sum, getattr, ret, raise, log_event.
    rewrite Ho. simpl. rewrite Ha. simpl. rewrite Hpk. simpl.
    match goal with
    | |- context [NautobotRemote.http_error ?st] =>
      destruct (NautobotRemote.http_error st)
    end; simpl; rewrite ?Ho; simpl; rewrite <- ?app_assoc; by eexists.
  - intros v ->. unfold site_patch_data, put_if.
    rewrite lookup_singleton_eq.
    by rewrite !lookup_singleton_ne by done.
  - intros v Hv Hf.
    destruct (site_patch_data_ok attrs) as (_ & _ & _ & _ & _ & -> & _).
    rewrite Hv. simpl. unfold region_ref. by rewrite Hf.
Qed.


(** X15: the adapter can only be built with both a URL and a token: an empty
    URL or an empty token is a [ValueError], and otherwise the adapter keeps
    both as given. *)
Theorem init_requires_url_and_token (url token : string) (a : Adapter) :
  (url = "" ∨ token = "" ↔ NautobotRemote.init url token a = inl ValueError)
  ∧ (url ≠ "" → token ≠ "" →
     NautobotRemote.init url token a
     = inr {| NautobotRemote.url := url; NautobotRemote.token := token;
              NautobotRemote.adapter := a |}).
Proof.
  unfold NautobotRemote.init. simpl.
  destruct (String.eqb_spec url "") as [->|Hu];
    destruct (String.eqb_spec token "") as [->|Ht]; simpl;
    intuition congruence.
Qed.

Lemma nderef_ok (l : nat) (w w' : NWorld) (o : PyObject) :
  nderef l w = (Ok o, w') → objects w !! l = Some o.
Proof. unfold nderef. destruct (objects w !! l); by intros [= <- _]. Qed.

Lemma outcome_bind_readonly {A B} (c : M NWorld A) (k : A → M NWorld B) (w : NWorld) :
  readonly c →
  (∀ a, c w = (Ok a, w) → write_outcome (k a) w) →
  write_outcome (bind c k) w.
Proof.
  intros Hc Hk. unfold write_outcome, bind. specialize (Hc w).
  destruct (c w) as [[a|e|] w1] eqn:Hcw; simpl in Hc; subst w1.
  - by apply Hk.
  - left. by split.
  - left. by split.
Qed.

Lemma outcome_send_then {A} (r : Request) (k : M NWorld A) (w : NWorld) :
  (∃ e a w', is_base e = true
             ∧ k (log_event (Sent r) w) = (Ok a, w')
             ∧ events w' = events (log_event (Sent r) w) ++ [e]) →
  write_outcome
    ((let* response := NautobotRemote.send r in
      NautobotRemote.raise_for_status response ;; ret response) ;; k) w.
Proof.
  intros (e & a & w' & He & Hk & Hev). unfold write_outcome, bind, NautobotRemote.send,
    NautobotRemote.raise_for_status. simpl.
  destruct (NautobotRemote.http_error (remote w r)) eqn:Hst; simpl.
  - right; left. by exists r.
  - right; right. exists r, e, a. rewrite Hk. simpl. rewrite Hev. simpl.
    by rewrite <- app_assoc.
Qed.

Lemma outcome_post_create
    (d : NautobotRemote.t) (path : string) (data : gmap string json)
    (c : ModelClass) (a : Adapter) (ids attrs : gmap string pyval) (w : NWorld) :
  write_outcome (NautobotRemote.post d path data ;; base_create c a ids attrs) w.
Proof.
  apply (outcome_send_then _ (base_create c a ids attrs)).
  by eexists (BaseCreate c ids attrs), _, _.
Qed.

Lemma outcome_patch_update
    (d : NautobotRemote.t) (path : string) (data : gmap string json)
    (self : nat) (attrs : gmap string pyval) (w : NWorld) (o : PyObject) :
  objects w !! self = Some o →
  write_outcome (NautobotRemote.patch d path data ;; base_update self attrs) w.
Proof.
  intros Ho. apply (outcome_send_then _ (base_update self attrs)).
  eexists (BaseUpdate self attrs), self, _. split; [done|].
  unfold base_update, bind, nderef, log_event. simpl. by rewrite Ho.
Qed.

Ltac outcome_tac :=
  repeat (apply outcome_bind_readonly; [solve [readonly_tac]|intros ? ?]);
  first
    [ apply outcome_post_create
    | eapply outcome_patch_update; eapply nderef_ok; eassumption ].

(** X16: a region or site create or update goes one of three ways. It fails
    before anything is sent and leaves the whole state as it was; or it
    sends exactly one request, the answer has an error status, that error
    is raised, and objects and record graph are as before; or it sends
    exactly one request, the answer has no error status, the base class is
    reached exactly once, after the request, and the call returns. So no
    call returns without having sent its request, and none sends two. *)
Theorem remote_write_outcomes (d : NautobotRemote.t) (op : remote_write) (w : NWorld) :
  write_outcome (run_write d op) w.
Proof.
  destruct op; simpl.
  - unfold RegionNautobotModel.create. outcome_tac.
  - unfold RegionNautobotModel.update. outcome_tac.
  - unfold SiteNautobotModel.create. outcome_tac.
  - unfold SiteNautobotModel.update. outcome_tac.
Qed.


Lemma ex_and_r {A} (P : A → Prop) (Q : Prop) :
  (∃ x, P x) → Q → ∃ x, P x ∧ Q.
Proof. intros [x HP] HQ. by exists x. Qed.

Lemma truthy_PStr (p : string) : p ≠ "" → truthy (PStr p) = true.
Proof. intros Hp. simpl. by destruct (String.eqb_spec p ""). Qed.

(** X17: a region create with any of its four keys missing ([name] among
    the identifiers; [slug], [description], [parent_name] among the
    attributes) raises [KeyError] before anything is sent, and leaves the
    state as it was. *)
Theorem region_create_missing_key
    (d : NautobotRemote.t) (ids attrs : gmap string pyval) (w : NWorld) :
  ids !! "name" = None ∨ attrs !! "slug" = None
  ∨ attrs !! "description" = None ∨ attrs !! "parent_name" = None →
  ∃ k, RegionNautobotModel.create d ids attrs w = (Raise (KeyError k), w).
Proof.
  intros Hmiss.
  unfold RegionNautobotModel.create, bind, of_sum, item.
  destruct (ids !! "name") as [vn|]; [|by eexists].
  destruct (attrs !! "slug") as [vs|]; [|by eexists].
  destruct (attrs !! "description") as [vd|]; [|by eexists].
  simpl. destruct (truthy vd); simpl;
    (destruct (attrs !! "parent_name") as [vp|]; [|eexists; reflexivity]);
    exfalso; intuition congruence.
Qed.

(** X18: a site create with any of its seven keys missing raises
    [KeyError] before anything is sent, and leaves the state as it was. *)
Theorem site_create_missing_key
    (d : NautobotRemote.t) (ids attrs : gmap string pyval) (w : NWorld) :
  ids !! "name" = None
  ∨ (∃ k, k ∈ ["slug"; "description"; "status_slug"; "region_name";
               "latitude"; "longitude"] ∧ attrs !! k = None) →
  ∃ k, SiteNautobotModel.create d ids attrs w = (Raise (KeyError k), w).
Proof.
  intros Hmiss.
  unfold SiteNautobotModel.create, bind, of_sum, item.
  destruct (ids !! "name") as [vn|]; [|by eexists].
  destruct (attrs !! "slug") as [vs|] eqn:Hs; [|by eexists].
  destruct (attrs !! "description") as [vd|] eqn:Hd; [|by eexists].
  destruct (attrs !! "status_slug") as [vt|] eqn:Ht; [|by eexists].
  destruct (attrs !! "region_name") as [vr|] eqn:Hr; [|by eexists].
  simpl. destruct (truthy vr); simpl;
    (destruct (attrs !! "latitude") as [va|] eqn:Ha; [|eexists; reflexivity]);
    (destruct (attrs !! "longitude") as [vo|] eqn:Ho; [|eexists; reflexivity]);
    exfalso; (destruct Hmiss as [|(k & Hk & Hnone)]; [done|]);
    repeat (apply elem_of_cons in Hk as [->|Hk]; [congruence|]);
    by apply elem_of_nil in Hk.
Qed.

(** X19: a region create that names a parent which is not in the local
    record graph raises NotFound before anything is sent, and leaves the
    state as it was. *)
Theorem region_create_unknown_parent
    (d : NautobotRemote.t) (ids attrs : gmap string pyval) (w : NWorld)
    (name slug description : pyval) (p : string) :
  ids !! "name" = Some name →
  attrs !! "slug" = Some slug →
  attrs !! "description" = Some description →
  attrs !! "parent_name" = Some (PStr p) →
  p ≠ "" →
  graph w !! (get_type NautobotRemote.region, p) = None →
  RegionNautobotModel.create d ids attrs w = (Raise ObjectNotFound, w).
Proof.
  intros Hn Hs Hd Hp Hne Hg. cbn in Hg.
  unfold RegionNautobotModel.create, bind, of_sum, item, adapter_get, gets.
  rewrite Hn, Hs, Hd, Hp. cbn -[truthy].
  rewrite (truthy_PStr p Hne).
  destruct (truthy description); cbn; by rewrite Hg.
Qed.

(** X20: a region update that names a parent which is not in the local
    record graph raises NotFound before anything is sent, and leaves the
    state as it was. *)
Theorem region_update_unknown_parent
    (d : NautobotRemote.t) (self : nat) (attrs : gmap string pyval) (w : NWorld)
    (o : PyObject) (a : Adapter) (p : string) :
  objects w !! self = Some o →
  diffsync o = BAdapter a →
  attrs !! "parent_name" = Some (PStr p) →
  p ≠ "" →
  graph w !! (get_type NautobotRemote.region, p) = None →
  RegionNautobotModel.update d self attrs w = (Raise ObjectNotFound, w).
Proof.
  intros Ho Ha Hp Hne Hg. cbn in Hg. unfold RegionNautobotModel.update.
  rewrite (bind_ok _ _ _ _ _ (stage_run "slug" "slug" attrs _ w)).
  rewrite (bind_ok _ _ _ _ _ (stage_run "description" "description" attrs _ w)).
  unfold bind, of_sum, item, adapter_get, gets, nderef, owner.
  rewrite Hp. cbn -[truthy]. rewrite (truthy_PStr p Hne), Ho. cbn.
  rewrite Ha. cbn. by rewrite Hg.
Qed.

Lemma region_post_data_lookup (name slug description : pyval) (parent : option pyval) :
  region_post_data name slug description parent py_str !! "name" = Some (JVal name)
  ∧ region_post_data name slug description parent py_str !! "slug" = Some (JVal slug)
  ∧ region_post_data name slug description parent py_str !! "description"
    = (if truthy description then Some (JVal description) else None)
  ∧ region_post_data name slug description parent py_str !! "parent"
    = (λ pk, JVal (PStr (py_str pk))) <$> parent
  ∧ (∀ k, k ≠ "name" → k ≠ "slug" → k ≠ "description" → k ≠ "parent" →
       region_post_data name slug description parent py_str !! k = None).
Proof.
  unfold region_post_data.
  destruct (truthy description), parent as [pk|]; simpl;
    repeat split; intros; by simplify_map_eq.
Qed.

(** X21: a region create with all its keys, whose parent (if one is named)
    is in the local record graph, sends a POST to the regions endpoint. Its
    body holds [name] and [slug]; [description] only when that is truthy
    (an empty description is left out, not sent as empty); [parent] only
    when a parent is named, as the text of the parent's primary key; and
    nothing else. *)
Theorem region_create_post_body
    (d : NautobotRemote.t) (ids attrs : gmap string pyval) (w : NWorld)
    (name slug description parent_name : pyval) (parent : option pyval) :
  ids !! "name" = Some name →
  attrs !! "slug" = Some slug →
  attrs !! "description" = Some description →
  attrs !! "parent_name" = Some parent_name →
  resolves w parent_name parent →
  ∃ data rest,
    events (RegionNautobotModel.create d ids attrs w).2
    = events w ++
      Sent {| method := POST;
              target := NautobotRemote.url d +:+ "/api/dcim/regions/";
              req_headers := NautobotRemote.headers d;
              json_body := Some data |} :: rest
    ∧ data !! "name" = Some (JVal name)
    ∧ data !! "slug" = Some (JVal slug)
    ∧ data !! "description"
      = (if truthy description then Some (JVal description) else None)
    ∧ data !! "parent" = (λ pk, JVal (PStr (py_str pk))) <$> parent
    ∧ (∀ k, k ≠ "name" → k ≠ "slug" → k ≠ "description" → k ≠ "parent" →
         data !! k = None).
Proof.
  intros Hn Hs Hd Hp Hres.
  exists (region_post_data name slug description parent py_str).
  assert (RegionNautobotModel.create d ids attrs w
          = (NautobotRemote.post d "/api/dcim/regions/"
               (region_post_data name slug description parent py_str) ;;
             base_create RegionModel (NautobotRemote.adapter d) ids attrs) w) as ->.
  { unfold RegionNautobotModel.create, region_post_data, item.
    rewrite Hn, Hs, Hd, Hp. unfold of_sum at 1 2 3, bind at 1 2 3, ret at 1 2 3.
    destruct Hres as [[Hf ->]|(p & l & po & pk & -> & Hne & Hg & Hpo & Hpk & ->)].
    - unfold bind, of_sum, ret. cbn -[truthy]. rewrite Hf.
      by destruct (truthy description).
    - cbn in Hg. unfold bind, of_sum, ret, adapter_get, gets, nderef, getattr.
      cbn -[truthy]. rewrite (truthy_PStr p Hne).
      destruct (truthy description); cbn; rewrite Hg; cbn; rewrite Hpo; cbn;
        by rewrite Hpk. }
  destruct (region_post_data_lookup name slug description parent)
    as (H1 & H2 & H3 & H4 & H5).
  cut (∃ rest,
         events ((NautobotRemote.post d "/api/dcim/regions/"
                    (region_post_data name slug description parent py_str) ;;
                  base_create RegionModel (NautobotRemote.adapter d) ids attrs) w).2
         = events w ++
           Sent {| method := POST;
                   target := NautobotRemote.url d +:+ "/api/dcim/regions/";
                   req_headers := NautobotRemote.headers d;
                   json_body :=
                     Some (region_post_data name slug description parent py_str) |}
           :: rest).
  { intros [rest Hev]. by exists rest. }
  unfold NautobotRemote.post, NautobotRemote.send, NautobotRemote.raise_for_status,
    base_create, bind, ret, raise, log_event. simpl.
  match goal with
  | |- context [NautobotRemote.http_error ?st] =>
    destruct (NautobotRemote.http_error st)
  end; simpl; rewrite <- ?app_assoc; by eexists.
Qed.

(** X22: a region update that names a parent which is in the local record
    graph sends a PATCH to the record's own endpoint whose body holds
    [parent] as the text of that parent's primary key, [slug] and
    [description] exactly when the change set does, and nothing else. *)
Theorem region_update_sets_parent
    (d : NautobotRemote.t) (self : nat) (attrs : gmap string pyval) (w : NWorld)
    (o : PyObject) (a : Adapter) (pk : pyval)
    (p : string) (l : nat) (po : PyObject) (ppk : pyval) :
  objects w !! self = Some o →
  diffsync o = BAdapter a →
  fields o !! "pk" = Some pk →
  attrs !! "parent_name" = Some (PStr p) →
  p ≠ "" →
  graph w !! (get_type NautobotRemote.region, p) = Some l →
  objects w !! l = Some po →
  fields po !! "pk" = Some ppk →
  ∃ data rest,
    events (RegionNautobotModel.update d self attrs w).2
    = events w ++
      Sent {| method := PATCH;
              target := NautobotRemote.url d +:+ "/api/dcim/regions/" +:+ py_str pk +:+ "/";
              req_headers := NautobotRemote.headers d;
              json_body := Some data |} :: rest
    ∧ data !! "parent" = Some (JVal (PStr (py_str ppk)))
    ∧ data !! "slug" = JVal <$> attrs !! "slug"
    ∧ data !! "description" = JVal <$> attrs !! "description"
    ∧ (∀ k, k ≠ "slug" → k ≠ "description" → k ≠ "parent" → data !! k = None).
Proof.
  intros Ho Ha Hpk Hp Hne Hg Hpo Hppk. cbn in Hg.
  exists (<["parent" := JVal (PStr (py_str ppk))]>
            (put_if "description" "description" JVal attrs
               (put_if "slug" "slug" JVal attrs ∅))).
  unfold RegionNautobotModel.update.
  rewrite (bind_ok _ _ _ _ _ (stage_run "slug" "slug" attrs _ w)).
  rewrite (bind_ok _ _ _ _ _ (stage_run "description" "description" attrs _ w)).
  unfold NautobotRemote.patch, NautobotRemote.send, NautobotRemote.raise_for_status,
    base_update, bind, of_sum, item, adapter_get, gets, nderef, owner, getattr,
    ret, raise, log_event.
  rewrite Hp. cbn -[truthy]. rewrite (truthy_PStr p Hne), Ho. cbn.
  rewrite Ha. cbn. rewrite Hg. cbn. rewrite Hpo. cbn. rewrite Hppk. cbn.
  rewrite ?Ho; cbn. rewrite ?Ha; cbn. rewrite Hpk. cbn.
  apply ex_and_r.
  - match goal with
    | |- context [NautobotRemote.http_error ?st] =>
      destruct (NautobotRemote.http_error st)
    end; simpl; rewrite ?Ho; simpl; rewrite <- ?app_assoc; by eexists.
  - split; [apply lookup_insert_eq|].
    repeat split; intros; rewrite lookup_insert_ne by done;
      repeat first
        [ rewrite lookup_put_if_ne by done
        | rewrite lookup_put_if_eq;
            [done|repeat (rewrite lookup_put_if_ne by done); apply lookup_empty]
        | apply lookup_empty ].
Qed.

(** X23: a site create with all its keys sends a POST to the sites endpoint
    whose body always holds all seven fields, [status_slug] under the name
    [status] and [region_name] under the name [region], as an object with
    the region's name or as null when the site has no region. *)
Theorem site_create_post_body
    (d : NautobotRemote.t) (ids attrs : gmap string pyval) (w : NWorld)
    (name slug description status region_name latitude longitude : pyval) :
  ids !! "name" = Some name →
  attrs !! "slug" = Some slug →
  attrs !! "description" = Some description →
  attrs !! "status_slug" = Some status →
  attrs !! "region_name" = Some region_name →
  attrs !! "latitude" = Some latitude →
  attrs !! "longitude" = Some longitude →
  (∃ rest,
     events (SiteNautobotModel.create d ids attrs w).2
     = events w ++
       Sent {| method := POST;
               target := NautobotRemote.url d +:+ "/api/dcim/sites/";
               req_headers := NautobotRemote.headers d;
               json_body :=
                 Some (site_post_data name slug description status region_name
                         latitude longitude) |} :: rest)
  ∧ dom (site_post_data name slug description status region_name latitude longitude)
    = list_to_set ["name"; "slug"; "description"; "status"; "region";
                   "latitude"; "longitude"]
  ∧ site_post_data name slug description status region_name latitude longitude
      !! "region"
    = Some (if truthy region_name then JObj {[ "name" := region_name ]}
            else JVal PNone).
Proof.
  intros Hn Hs Hd Ht Hr Ha Ho. split; [|split].
  - unfold SiteNautobotModel.create, site_post_data, region_ref, item.
    rewrite Hn, Hs, Hd, Ht, Hr, Ha, Ho.
    unfold NautobotRemote.post, NautobotRemote.send, NautobotRemote.raise_for_status,
      base_create, bind, of_sum, ret, raise, log_event.
    destruct (truthy region_name); simpl;
      match goal with
      | |- context [NautobotRemote.http_error ?st] =>
        destruct (NautobotRemote.http_error st)
      end; simpl; rewrite <- ?app_assoc; by eexists.
  - unfold site_post_data. rewrite !dom_insert_L, dom_empty_L. set_solver.
  - unfold site_post_data, region_ref. by simplify_map_eq.
Qed.

Lemma first_request_bind_readonly {A B} (P : Request → Prop)
    (c : M NWorld A) (k : A → M NWorld B) :
  readonly c → (∀ a, first_request P (k a)) → first_request P (bind c k).
Proof.
  intros Hc Hk w req rest. unfold bind. specialize (Hc w).
  destruct (c w) as [[a|e|] w1]; simpl in *; subst.
  - apply Hk.
  - intros Hev. by apply no_new_event in Hev.
  - intros Hev. by apply no_new_event in Hev.
Qed.

Lemma first_request_send_then {A} (P : Request → Prop) (r : Request) (k : M NWorld A) :
  appends k → P r →
  first_request P
    ((let* response := NautobotRemote.send r in
      NautobotRemote.raise_for_status response ;; ret response) ;; k).
Proof.
  intros Hk HP w req rest. unfold bind, NautobotRemote.send,
    NautobotRemote.raise_for_status. simpl.
  destruct (NautobotRemote.http_error (remote w r)); simpl.
  - intros Hev. apply app_inv_head in Hev. by simplify_eq.
  - destruct (Hk (log_event (Sent r) w)) as [evs Hevs].
    rewrite Hevs. simpl. rewrite <- app_assoc. simpl.
    intros Hev. apply app_inv_head in Hev. by simplify_eq.
Qed.

Lemma first_request_post_then {A} (P : Request → Prop)
    (d : NautobotRemote.t) (path : string) (data : gmap string json) (k : M NWorld A) :
  appends k →
  P {| method := POST; target := NautobotRemote.url d +:+ path;
       req_headers := NautobotRemote.headers d; json_body := Some data |} →
  first_request P (NautobotRemote.post d path data ;; k).
Proof. intros Hk HP. by apply (first_request_send_then P _ k). Qed.

Lemma first_request_patch_then {A} (P : Request → Prop)
    (d : NautobotRemote.t) (path : string) (data : gmap string json) (k : M NWorld A) :
  appends k →
  P {| method := PATCH; target := NautobotRemote.url d +:+ path;
       req_headers := NautobotRemote.headers d; json_body := Some data |} →
  first_request P (NautobotRemote.patch d path data ;; k).
Proof. intros Hk HP. by apply (first_request_send_then P _ k). Qed.

Lemma first_request_bind_owner {B} (P : Request → Prop)
    (d : NautobotRemote.t) (o : PyObject) (k : NautobotRemote.t → M NWorld B) :
  first_request P (k d) → first_request P (bind (owner d o) k).
Proof.
  intros Hk w req rest. unfold bind, owner.
  destruct (diffsync o); simpl; try apply Hk;
    intros Hev; by apply no_new_event in Hev.
Qed.

Ltac first_request_tac :=
  repeat first
    [ apply first_request_bind_owner
    | apply first_request_bind_readonly; [solve [readonly_tac]|intros ?] ];
  first
    [ apply first_request_post_then; [apply appends_base_create|]
    | apply first_request_patch_then; [apply appends_base_update|] ].

(** X24: whatever request a region or site create or update sends carries
    the write's method (POST for a create, PATCH for an update), goes to a
    URL below the write's endpoint on the adapter's own remote system,
    carries the adapter's token as [Authorization: Token ...], accepts
    JSON, and has a JSON body. *)
Theorem remote_write_request
    (d : NautobotRemote.t) (op : remote_write) (w : NWorld)
    (req : Request) (rest : list Event) :
  events (run_write d op w).2 = events w ++ Sent req :: rest →
  well_addressed d op req.
Proof.
  revert w req rest.
  change (first_request (well_addressed d op) (run_write d op)).
  destruct op; simpl.
  - unfold RegionNautobotModel.create. first_request_tac.
    repeat split; try done. by exists "".
  - unfold RegionNautobotModel.update. first_request_tac.
    repeat split; try done. by eexists.
  - unfold SiteNautobotModel.create. first_request_tac.
    repeat split; try done. by exists "".
  - unfold SiteNautobotModel.update. first_request_tac.
    repeat split; try done. by eexists.
Qed.

End NautobotMore.

Lemma site_update_patch_body_witness :
  ∃ rest,
    events (SiteNautobotModel.update (H := bit_runtime) Sample.nautobot 1
              {[ "status_slug" := PStr "planned" ]} (SampleSite.answering 200)).2
    = Sent {| method := PATCH;
              target := "https://demo.nautobot.com/api/dcim/sites/12/";
              req_headers := NautobotRemote.headers Sample.nautobot;
              json_body := Some {[ "status" := JVal (PStr "planned") ]} |} :: rest.
Proof.
  destruct (site_update_patch_body (H := bit_runtime) Sample.nautobot 1
              {[ "status_slug" := PStr "planned" ]} (SampleSite.answering 200)
              SampleSite.ams Sample.owner_adapter (PInt 12))
    as ((rest & Hev) & _ & Honly & _); [reflexivity|reflexivity|reflexivity|].
  exists rest. rewrite Hev. rewrite (Honly _ eq_refl). reflexivity.
Defined.

Lemma init_requires_url_and_token_witness :
  NautobotRemote.init "" "aaaa" Sample.owner_adapter = inl ValueError
  ∧ NautobotRemote.init "https://demo.nautobot.com" "aaaa" Sample.owner_adapter
    = inr Sample.nautobot.
Proof.
  split.
  - apply (init_requires_url_and_token "" "aaaa" Sample.owner_adapter).
    left. reflexivity.
  - apply (init_requires_url_and_token "https://demo.nautobot.com" "aaaa"
             Sample.owner_adapter); discriminate.
Defined.

Lemma region_create_missing_key_witness :
  ∃ k, RegionNautobotModel.create (H := bit_runtime) Sample.nautobot
         Sample.apac_ids {[ "slug" := PStr "apac" ]} (Sample.answering 200)
       = (Raise (KeyError k), Sample.answering 200).
Proof.
  apply (region_create_missing_key (H := bit_runtime)).
  right; right; left. reflexivity.
Defined.

Lemma site_create_missing_key_witness :
  ∃ k, SiteNautobotModel.create (H := bit_runtime) Sample.nautobot
         Sample.apac_ids Sample.apac_attrs (SampleSite.answering 200)
       = (Raise (KeyError k), SampleSite.answering 200).
Proof.
  apply (site_create_missing_key (H := bit_runtime)).
  right. exists "status_slug". split; [|reflexivity].
  do 2 apply list_elem_of_further. apply list_elem_of_here.
Defined.

Lemma region_create_unknown_parent_witness :
  RegionNautobotModel.create (H := bit_runtime) Sample.nautobot
    SampleSite.fr_ids (SampleSite.fr_attrs "Europe") (SampleSite.answering 200)
  = (Raise ObjectNotFound, SampleSite.answering 200).
Proof.
  apply (region_create_unknown_parent (H := bit_runtime) Sample.nautobot
           SampleSite.fr_ids (SampleSite.fr_attrs "Europe") (SampleSite.answering 200)
           (PStr "FR") (PStr "fr") (PStr "") "Europe");
    try reflexivity. discriminate.
Defined.

Lemma region_update_unknown_parent_witness :
  RegionNautobotModel.update (H := bit_runtime) Sample.nautobot 2
    {[ "parent_name" := PStr "Europe" ]} (SampleSite.answering 200)
  = (Raise ObjectNotFound, SampleSite.answering 200).
Proof.
  apply (region_update_unknown_parent (H := bit_runtime) Sample.nautobot 2
           {[ "parent_name" := PStr "Europe" ]} (SampleSite.answering 200)
           SampleSite.uk Sample.owner_adapter "Europe");
    try reflexivity. discriminate.
Defined.

Lemma region_create_post_body_witness :
  ∃ data rest,
    events (RegionNautobotModel.create (H := bit_runtime) Sample.nautobot
              SampleSite.fr_ids (SampleSite.fr_attrs "EMEA")
              (SampleSite.answering 201)).2
    = Sent {| method := POST;
              target := "https://demo.nautobot.com/api/dcim/regions/";
              req_headers := NautobotRemote.headers Sample.nautobot;
              json_body := Some data |} :: rest
    ∧ data !! "description" = None
    ∧ data !! "parent" = Some (JVal (PStr "7")).
Proof.
  destruct (region_create_post_body (H := bit_runtime) Sample.nautobot
              SampleSite.fr_ids (SampleSite.fr_attrs "EMEA") (SampleSite.answering 201)
              (PStr "FR") (PStr "fr") (PStr "") (PStr "EMEA") (Some (PInt 7)))
    as (data & rest & Hev & _ & _ & Hd & Hp & _);
    [reflexivity|reflexivity|reflexivity|reflexivity| |].
  - right. exists "EMEA", 0, Sample.emea, (PInt 7).
    repeat split; try reflexivity. discriminate.
  - exists data, rest. split; [exact Hev|]. split; [exact Hd|exact Hp].
Defined.

Lemma region_update_sets_parent_witness :
  ∃ data rest,
    events (RegionNautobotModel.update (H := bit_runtime) Sample.nautobot 2
              {[ "parent_name" := PStr "EMEA" ]} (SampleSite.answering 200)).2
    = Sent {| method := PATCH;
              target := "https://demo.nautobot.com/api/dcim/regions/9/";
              req_headers := NautobotRemote.headers Sample.nautobot;
              json_body := Some data |} :: rest
    ∧ data !! "parent" = Some (JVal (PStr "7")).
Proof.
  destruct (region_update_sets_parent (H := bit_runtime) Sample.nautobot 2
              {[ "parent_name" := PStr "EMEA" ]} (SampleSite.answering 200)
              SampleSite.uk Sample.owner_adapter (PInt 9)
              "EMEA" 0 Sample.emea (PInt 7))
    as (data & rest & Hev & Hp & _); try reflexivity; [discriminate|].
  exists data, rest. split; [exact Hev|exact Hp].
Defined.

Lemma site_create_post_body_witness :
  ∃ rest,
    events (SiteNautobotModel.create (H := bit_runtime) Sample.nautobot
              SampleSite.lon_ids SampleSite.lon_attrs (SampleSite.answering 201)).2
    = Sent {| method := POST;
              target := "https://demo.nautobot.com/api/dcim/sites/";
              req_headers := NautobotRemote.headers Sample.nautobot;
              json_body :=
                Some (site_post_data (PStr "LON01") (PStr "lon01") (PStr "")
                        (PStr "planned") (PStr "EMEA") (PInt 51) (PInt 0)) |}
      :: rest.
Proof.
  destruct (site_create_post_body (H := bit_runtime) Sample.nautobot
              SampleSite.lon_ids SampleSite.lon_attrs (SampleSite.answering 201)
              (PStr "LON01") (PStr "lon01") (PStr "") (PStr "planned")
              (PStr "EMEA") (PInt 51) (PInt 0))
    as ((rest & Hev) & _); try reflexivity.
  exists rest. exact Hev.
Defined.

Lemma remote_write_request_witness :
  well_addressed Sample.nautobot
    (RegionCreate Sample.apac_ids Sample.apac_attrs)
    {| method := POST;
       target := "https://demo.nautobot.com/api/dcim/regions/";
       req_headers := NautobotRemote.headers Sample.nautobot;
       json_body := Some (<["slug" := JVal (PStr "apac")]>
                            (<["name" := JVal (PStr "APAC")]> ∅)) |}.
Proof.
  apply (remote_write_request (H := bit_runtime) Sample.nautobot
           (RegionCreate Sample.apac_ids Sample.apac_attrs) (Sample.answering 500)
           _ []).
  reflexivity.
Defined.

(** * Loading from the remote system *)

Lemma log_trace_nil (w : LWorld) : log_trace [] w = w.
Proof. destruct w. unfold log_trace. simpl. by rewrite app_nil_r. Qed.

Lemma log_trace_app (evs1 evs2 : list LEvent) (w : LWorld) :
  log_trace evs2 (log_trace evs1 w) = log_trace (evs1 ++ evs2) w.
Proof. unfold log_trace. simpl. by rewrite app_assoc. Qed.

Lemma and_then_inr {A B} (r : exn + A) (k : A → exn + B) (b : B) :
  and_then r k = inr b → ∃ a, r = inr a ∧ k a = inr b.
Proof. destruct r as [e|a]; [done|]. intros Hk. by exists a. Qed.

(** X25: the keyword arguments of a region record built by [load] always
    hold exactly the five fields [name], [slug], [description],
    [parent_name] and [pk]; name, slug and primary key are the entry's own;
    a description that is empty (or otherwise falsy) becomes null, so the
    description is null or truthy; and the parent name is null when the
    entry has no parent and else the name found in the entry's parent. *)
Theorem region_kwargs_normalised (entry : jsonv) (kwargs : gmap string jsonv) :
  region_kwargs entry = inr kwargs →
  dom kwargs = list_to_set ["name"; "slug"; "description"; "parent_name"; "pk"]
  ∧ inr <$> kwargs !! "name" = Some (subscript entry "name")
  ∧ inr <$> kwargs !! "slug" = Some (subscript entry "slug")
  ∧ inr <$> kwargs !! "pk" = Some (subscript entry "id")
  ∧ (∃ d, subscript entry "description" = inr d
          ∧ kwargs !! "description" = Some (if truthy_json d then d else JNull))
  ∧ (∀ d, kwargs !! "description" = Some d → d = JNull ∨ truthy_json d = true)
  ∧ (∃ p, subscript entry "parent" = inr p
          ∧ inr <$> kwargs !! "parent_name"
            = Some (if truthy_json p then subscript p "name" else inr JNull)).
Proof.
  unfold region_kwargs. intros Hk.
  apply and_then_inr in Hk as (name & Hname & Hk).
  apply and_then_inr in Hk as (slug & Hslug & Hk).
  apply and_then_inr in Hk as (d & Hd & Hk).
  apply and_then_inr in Hk as (p & Hp & Hk).
  apply and_then_inr in Hk as (pn & Hpn & Hk).
  apply and_then_inr in Hk as (pk & Hpk & Hk).
  injection Hk as <-.
  rewrite Hname, Hslug, Hpk.
  split; [rewrite !dom_insert_L, dom_empty_L; set_solver|].
  repeat split; try by simplify_map_eq.
  - exists d. by simplify_map_eq.
  - intros d'. simplify_map_eq. intros [= <-].
    destruct (truthy_json d) eqn:Ht; [by right|by left].
  - exists p. split; [done|]. simplify_map_eq.
    destruct (truthy_json p); [|by injection Hpn as <-].
    rewrite Hp in Hpn. simpl in Hpn. by rewrite Hpn.
Qed.

(** X26: the keyword arguments of a site record built by [load] always hold
    exactly eight fields; the status is the entry's status value, and
    ["active"] when the entry has no status; the region name is null when
    the entry has no region and else the name found in the entry's region;
    the description is passed on as it is, also when empty. *)
Theorem site_kwargs_normalised (entry : jsonv) (kwargs : gmap string jsonv) :
  site_kwargs entry = inr kwargs →
  dom kwargs = list_to_set ["name"; "slug"; "status_slug"; "region_name";
                            "description"; "longitude"; "latitude"; "pk"]
  ∧ inr <$> kwargs !! "description" = Some (subscript entry "description")
  ∧ inr <$> kwargs !! "pk" = Some (subscript entry "id")
  ∧ (∃ s, subscript entry "status" = inr s
          ∧ inr <$> kwargs !! "status_slug"
            = Some (if truthy_json s then subscript s "value"
                    else inr (JString "active")))
  ∧ (∃ r, subscript entry "region" = inr r
          ∧ inr <$> kwargs !! "region_name"
            = Some (if truthy_json r then subscript r "name" else inr JNull)).
Proof.
  unfold site_kwargs. intros Hk.
  apply and_then_inr in Hk as (name & Hname & Hk).
  apply and_then_inr in Hk as (slug & Hslug & Hk).
  apply and_then_inr in Hk as (s & Hs & Hk).
  apply and_then_inr in Hk as (ss & Hss & Hk).
  apply and_then_inr in Hk as (r & Hr & Hk).
  apply and_then_inr in Hk as (rn & Hrn & Hk).
  apply and_then_inr in Hk as (d & Hd & Hk).
  apply and_then_inr in Hk as (lon & Hlon & Hk).
  apply and_then_inr in Hk as (lat & Hlat & Hk).
  apply and_then_inr in Hk as (pk & Hpk & Hk).
  injection Hk as <-.
  rewrite Hd, Hpk.
  split; [rewrite !dom_insert_L, dom_empty_L; set_solver|].
  repeat split; try by simplify_map_eq.
  - exists s. split; [done|]. simplify_map_eq.
    destruct (truthy_json s); [|by injection Hss as <-].
    rewrite Hs in Hss. simpl in Hss. by rewrite Hss.
  - exists r. split; [done|]. simplify_map_eq.
    destruct (truthy_json r); [|by injection Hrn as <-].
    rewrite Hr in Hrn. simpl in Hrn. by rewrite Hrn.
Qed.

Lemma truthy_JString (u : string) : u ≠ "" → truthy_json (JString u) = true.
Proof. intros Hu. simpl. by destruct (String.eqb_spec u ""). Qed.

Lemma bind_of_sum_inr {S A B} (a : A) (k : A → M S B) (st : S) :
  bind (of_sum (inr a)) k st = k a st.
Proof. reflexivity. Qed.

Lemma bind_of_sum_inl {S A B} (e : exn) (k : A → M S B) (st : S) :
  bind (of_sum (inl e)) k st = (Raise e, st).
Proof. reflexivity. Qed.

Lemma bind_requests_get_json {B} (self : NautobotRemote.t) (u : string)
    (k : jsonv → M LWorld B) (w : LWorld) (status : Z) (document : jsonv) :
  answers w (listing_request self u) = Some (status, document) →
  bind (requests_get_json self (JString u)) k w
  = k document (log_trace [Got (listing_request self u)] w).
Proof. intros Ha. unfold bind, requests_get_json. by rewrite Ha. Qed.

Lemma bind_register {B} (c : ModelClass) (kw : gmap string jsonv)
    (k : unit → M LWorld B) (w : LWorld) :
  vetoes w c kw (trace w) = None →
  bind (register c kw) k w = k tt (log_trace [Registered c kw] w).
Proof. intros Hv. unfold bind, register. by rewrite Hv. Qed.

(** X27: pagination. From a page after which the remote system's listing
    continues over further pages, each linked from the one before and the
    last one without a link, the loop requests exactly these pages, in
    order and under the linked URLs as they are, and returns the entries
    collected so far followed by the entries of all these pages in order.
    One unit of fuel per page, and one more, is enough. *)
Theorem follow_collects_pages
    (self : NautobotRemote.t) (remote : GetRequest → option (Z * jsonv))
    (data : jsonv) (rest : list jsonv) (urls : list string) :
  listing self remote data rest urls →
  ∀ (fuel : nat) (collected : list jsonv) (w : LWorld),
    answers w = remote →
    length urls < fuel →
    follow fuel self data (JArr collected) w
    = (Ok (JArr (collected ++ rest)),
       log_trace (Got ∘ listing_request self <$> urls) w).
Proof.
  induction 1 as [data next Hnext Hfalsy
                 |data u status data' es rest urls Hnext Hu Hpage Hres _ IH];
    intros fuel collected w Hw Hfuel.
  - destruct fuel as [|fuel]; [simpl in Hfuel; lia|].
    cbn [follow]. rewrite Hnext, bind_of_sum_inr, Hfalsy.
    unfold ret. by rewrite app_nil_r, log_trace_nil.
  - destruct fuel as [|fuel]; [simpl in Hfuel; lia|].
    simpl in Hfuel.
    cbn [follow]. rewrite Hnext, bind_of_sum_inr, (truthy_JString u Hu).
    rewrite bind_of_sum_inr.
    rewrite (bind_requests_get_json self u _ w status data') by by rewrite Hw.
    cbn [as_list]. rewrite bind_of_sum_inr, Hres, bind_of_sum_inr.
    cbn [iterate_json]. rewrite bind_of_sum_inr.
    rewrite (IH fuel (collected ++ es) (log_trace _ w)); [|done|lia].
    by rewrite app_assoc, log_trace_app.
Qed.

Section Loading.
Context (self : NautobotRemote.t) (c : ModelClass)
  (kwargs_of : jsonv → exn + gmap string jsonv).

Lemma register_all (entries : list jsonv) (kws : list (gmap string jsonv)) :
  Forall2 (λ entry kw, kwargs_of entry = inr kw) entries kws →
  ∀ w, (∀ c kw t, vetoes w c kw t = None) →
    for_ entries (λ entry, let* kwargs := of_sum (kwargs_of entry) in
                           register c kwargs) w
    = (Ok tt, log_trace (Registered c <$> kws) w).
Proof.
  induction 1 as [|entry kw entries kws Hkw _ IH]; intros w Hveto.
  - simpl. unfold ret. by rewrite log_trace_nil.
  - cbn [for_]. unfold bind at 1. rewrite Hkw, bind_of_sum_inr.
    unfold register at 1. rewrite Hveto.
    rewrite IH by done. by rewrite log_trace_app.
Qed.

Lemma register_until_failure
    (entries : list jsonv) (kws : list (gmap string jsonv))
    (bad : jsonv) (later : list jsonv) (e : exn) :
  Forall2 (λ entry kw, kwargs_of entry = inr kw) entries kws →
  kwargs_of bad = inl e →
  ∀ w, (∀ c kw t, vetoes w c kw t = None) →
    for_ (entries ++ bad :: later)
      (λ entry, let* kwargs := of_sum (kwargs_of entry) in register c kwargs) w
    = (Raise e, log_trace (Registered c <$> kws) w).
Proof.
  intros Hall Hbad.
  induction Hall as [|entry kw entries kws Hkw _ IH]; intros w Hveto.
  - cbn [app for_]. unfold bind at 1. rewrite Hbad, bind_of_sum_inl.
    by rewrite log_trace_nil.
  - cbn [app for_]. unfold bind at 1. rewrite Hkw, bind_of_sum_inr.
    unfold register at 1. rewrite Hveto.
    rewrite IH by done. by rewrite log_trace_app.
Qed.

Lemma load_listing_entries (path : string) (fuel : nat)
    (entries : list jsonv) (urls : list string) (w : LWorld) :
  listed self (answers w) path entries urls →
  length urls < fuel →
  load_listing fuel self path c kwargs_of w
  = for_ entries (λ entry, let* kwargs := of_sum (kwargs_of entry) in
                           register c kwargs)
      (log_trace (Got ∘ listing_request self
                    <$> (NautobotRemote.url self +:+ path) :: urls) w).
Proof.
  intros (status & data & es & rest & Hfirst & Hres & Hrest & ->) Hfuel.
  unfold load_listing.
  rewrite (bind_requests_get_json self _ _ w status data Hfirst).
  rewrite Hres, bind_of_sum_inr.
  unfold bind at 1.
  rewrite (follow_collects_pages self (answers w) data rest urls Hrest fuel es
             (log_trace _ w) eq_refl Hfuel).
  cbn [iterate_json]. rewrite bind_of_sum_inr.
  by rewrite log_trace_app.
Qed.

End Loading.

(** X28: when the remote system lists its regions and its sites, each over
    a chain of pages, every entry has the keys [load] reads, and the
    framework refuses no record, then [load] returns, and what it did is,
    in this order: request the region pages, register the region records
    (one per entry, in listing order), request the site pages, register
    the site records. Fuel for the longer chain of pages is enough. *)
Theorem load_registers_every_entry
    (fuel : nat) (self : NautobotRemote.t) (w : LWorld)
    (regions sites : list jsonv) (region_urls site_urls : list string)
    (region_kws site_kws : list (gmap string jsonv)) :
  listed self (answers w) "/api/dcim/regions/" regions region_urls →
  listed self (answers w) "/api/dcim/sites/" sites site_urls →
  Forall2 (λ entry kw, region_kwargs entry = inr kw) regions region_kws →
  Forall2 (λ entry kw, site_kwargs entry = inr kw) sites site_kws →
  (∀ c kw t, vetoes w c kw t = None) →
  length region_urls < fuel →
  length site_urls < fuel →
  load fuel self w
  = (Ok tt,
     log_trace
       (listing_events self "/api/dcim/regions/" NautobotRemote.region
          region_urls region_kws
        ++ listing_events self "/api/dcim/sites/" NautobotRemote.site
             site_urls site_kws) w).
Proof.
  intros Hregions Hsites Hrkw Hskw Hveto Hfr Hfs.
  unfold load, bind.
  rewrite (load_listing_entries self _ _ _ fuel regions region_urls w Hregions Hfr).
  rewrite (register_all _ _ regions region_kws Hrkw) by done.
  match goal with
  | |- context [load_listing fuel self "/api/dcim/sites/" _ _ ?w'] =>
    rewrite (load_listing_entries self _ _ _ fuel sites site_urls w' Hsites Hfs)
  end.
  rewrite (register_all _ _ sites site_kws Hskw) by done.
  unfold listing_events. by rewrite !log_trace_app, <- !app_assoc.
Qed.

(** X29: [load] is not atomic. When an entry of the regions listing lacks a
    key that [load] reads (or its parent cannot be subscripted), [load]
    raises that error; the region records of the entries before it stay
    registered, the entries after it are not looked at, and the sites
    listing is never requested. *)
Theorem load_stops_at_bad_region
    (fuel : nat) (self : NautobotRemote.t) (w : LWorld)
    (before later : list jsonv) (bad : jsonv) (e : exn)
    (region_urls : list string) (kws : list (gmap string jsonv)) :
  listed self (answers w) "/api/dcim/regions/" (before ++ bad :: later) region_urls →
  Forall2 (λ entry kw, region_kwargs entry = inr kw) before kws →
  region_kwargs bad = inl e →
  (∀ c kw t, vetoes w c kw t = None) →
  length region_urls < fuel →
  load fuel self w
  = (Raise e,
     log_trace
       (listing_events self "/api/dcim/regions/" NautobotRemote.region
          region_urls kws) w).
Proof.
  intros Hregions Hkw Hbad Hveto Hfr.
  unfold load, bind.
  rewrite (load_listing_entries self _ _ _ fuel _ region_urls w Hregions Hfr).
  rewrite (register_until_failure _ _ before kws bad later e Hkw Hbad) by done.
  unfold listing_events. by rewrite !log_trace_app.
Qed.

Section StatusBlind.

Lemma blind_ret {A} (a : A) : status_blind (ret a).
Proof. by intros w1 w2 Hw. Qed.

Lemma blind_raise {A} (e : exn) : status_blind (raise (A := A) e).
Proof. by intros w1 w2 Hw. Qed.

Lemma blind_undefined {A} : status_blind (undefined (A := A)).
Proof. by intros w1 w2 Hw. Qed.

Lemma blind_of_sum {A} (r : exn + A) : status_blind (of_sum r).
Proof. destruct r; by intros w1 w2 Hw. Qed.

Lemma blind_bind {A B} (c : M LWorld A) (k : A → M LWorld B) :
  status_blind c → (∀ a, status_blind (k a)) → status_blind (bind c k).
Proof.
  intros Hc Hk w1 w2 Hw. unfold bind.
  destruct (Hc w1 w2 Hw) as [Hres Hst].
  destruct (c w1) as [o1 w1'], (c w2) as [o2 w2']; simpl in *; subst o2.
  destruct o1; [by apply Hk|done|done].
Qed.

Lemma blind_if {A} (b : bool) (c1 c2 : M LWorld A) :
  status_blind c1 → status_blind c2 → status_blind (if b then c1 else c2).
Proof. by destruct b. Qed.

Lemma same_documents_log (evs : list LEvent) (w1 w2 : LWorld) :
  same_documents w1 w2 → same_documents (log_trace evs w1) (log_trace evs w2).
Proof.
  intros (Ha & Hv & Ht). split; [exact Ha|]. split; [exact Hv|].
  simpl. by rewrite Ht.
Qed.

Lemma blind_requests_get_json (self : NautobotRemote.t) (url : jsonv) :
  status_blind (requests_get_json self url).
Proof.
  destruct url; try apply blind_undefined.
  intros w1 w2 Hw. unfold requests_get_json.
  pose proof (proj1 Hw (listing_request self s)) as Hdoc.
  destruct (answers w1 (listing_request self s)) as [[st1 d1]|],
           (answers w2 (listing_request self s)) as [[st2 d2]|];
    simpl in *; try done.
  injection Hdoc as <-. split; [done|]. by apply same_documents_log.
Qed.

Lemma blind_register (c : ModelClass) (kw : gmap string jsonv) :
  status_blind (register c kw).
Proof.
  intros w1 w2 Hw. unfold register.
  destruct Hw as (Ha & Hv & Ht). rewrite Hv, Ht.
  destruct (vetoes w2 c kw (trace w2)); simpl; [done|].
  split; [done|]. by apply same_documents_log.
Qed.

Lemma blind_follow (fuel : nat) (self : NautobotRemote.t) (data entries : jsonv) :
  status_blind (follow fuel self data entries).
Proof.
  revert data entries. induction fuel as [|fuel IH]; intros data entries.
  - apply blind_undefined.
  - cbn [follow].
    apply blind_bind; [apply blind_of_sum|]. intros next.
    apply blind_if; [|apply blind_ret].
    apply blind_bind; [apply blind_of_sum|]. intros next'.
    apply blind_bind; [apply blind_requests_get_json|]. intros data'.
    apply blind_bind; [apply blind_of_sum|]. intros l.
    apply blind_bind; [apply blind_of_sum|]. intros results.
    apply blind_bind; [apply blind_of_sum|]. intros more.
    apply IH.
Qed.

Lemma blind_for {A} (xs : list A) (body : A → M LWorld unit) :
  (∀ x, status_blind (body x)) → status_blind (for_ xs body).
Proof.
  intros Hbody. induction xs as [|x xs IH]; [apply blind_ret|].
  cbn [for_]. apply blind_bind; [apply Hbody|]. intros _. apply IH.
Qed.

Lemma blind_load_listing (fuel : nat) (self : NautobotRemote.t) (path : string)
    (c : ModelClass) (kwargs_of : jsonv → exn + gmap string jsonv) :
  status_blind (load_listing fuel self path c kwargs_of).
Proof.
  unfold load_listing.
  apply blind_bind; [apply blind_requests_get_json|]. intros data.
  apply blind_bind; [apply blind_of_sum|]. intros entries.
  apply blind_bind; [apply blind_follow|]. intros entries'.
  apply blind_bind; [apply blind_of_sum|]. intros l.
  apply blind_for. intros entry.
  apply blind_bind; [apply blind_of_sum|]. intros kw. apply blind_register.
Qed.

(** X30: [load] never looks at the status of a response. Against two remote
    systems that answer every request with the same document but with
    whatever status codes, [load] returns or fails in the same way, after
    the same requests and registrations: a listing answered with an error
    status is read like any other. *)
Theorem load_ignores_status
    (fuel : nat) (self : NautobotRemote.t) (w1 w2 : LWorld) :
  same_documents w1 w2 →
  (load fuel self w1).1 = (load fuel self w2).1
  ∧ trace (load fuel self w1).2 = trace (load fuel self w2).2.
Proof.
  intros Hw.
  assert (status_blind (load fuel self)) as Hblind.
  { unfold load. apply blind_bind; [apply blind_load_listing|].
    intros _. apply blind_load_listing. }
  destruct (Hblind w1 w2 Hw) as (Hres & _ & _ & Htrace). by split.
Qed.

End StatusBlind.

Lemma region_kwargs_normalised_witness :
  dom (SampleLoad.region_args "EMEA" "emea" JNull JNull 7)
  = list_to_set ["name"; "slug"; "description"; "parent_name"; "pk"].
Proof.
  destruct (region_kwargs_normalised SampleLoad.emea
              (SampleLoad.region_args "EMEA" "emea" JNull JNull 7))
    as [Hdom _]; [reflexivity|exact Hdom].
Defined.

Lemma site_kwargs_normalised_witness :
  inr (A := exn) <$> SampleLoad.ams_args !! "status_slug"
  = Some (inr (JString "active")).
Proof.
  destruct (site_kwargs_normalised SampleLoad.ams SampleLoad.ams_args)
    as (_ & _ & _ & (s & Hs & Hstatus) & _); [reflexivity|].
  injection Hs as <-. exact Hstatus.
Defined.

Lemma sample_regions_listing :
  listing Sample.nautobot (SampleLoad.remote 200)
    (SampleLoad.page [SampleLoad.emea; SampleLoad.apac]
       (JString SampleLoad.second_page))
    [SampleLoad.uk] [SampleLoad.second_page].
Proof.
  apply (listing_next _ _ _ SampleLoad.second_page 200
           (SampleLoad.page [SampleLoad.uk] JNull) [SampleLoad.uk] [] []);
    [reflexivity|discriminate|reflexivity|reflexivity|].
  by apply (listing_end _ _ _ JNull).
Defined.

Lemma follow_collects_pages_witness :
  follow 2 Sample.nautobot
    (SampleLoad.page [SampleLoad.emea; SampleLoad.apac]
       (JString SampleLoad.second_page))
    (JArr [SampleLoad.emea; SampleLoad.apac]) (SampleLoad.answering 200)
  = (Ok (JArr [SampleLoad.emea; SampleLoad.apac; SampleLoad.uk]),
     log_trace [Got (listing_request Sample.nautobot SampleLoad.second_page)]
       (SampleLoad.answering 200)).
Proof.
  apply (follow_collects_pages Sample.nautobot (SampleLoad.remote 200) _
           [SampleLoad.uk] [SampleLoad.second_page] sample_regions_listing
           2 [SampleLoad.emea; SampleLoad.apac] (SampleLoad.answering 200));
    [reflexivity|simpl; lia].
Defined.

Lemma load_registers_every_entry_witness :
  load 2 Sample.nautobot (SampleLoad.answering 200)
  = (Ok tt,
     log_trace
       (listing_events Sample.nautobot "/api/dcim/regions/" NautobotRemote.region
          [SampleLoad.second_page] SampleLoad.regions_args
        ++ listing_events Sample.nautobot "/api/dcim/sites/" NautobotRemote.site
             [] [SampleLoad.ams_args])
       (SampleLoad.answering 200)).
Proof.
  apply (load_registers_every_entry 2 Sample.nautobot (SampleLoad.answering 200)
           [SampleLoad.emea; SampleLoad.apac; SampleLoad.uk] [SampleLoad.ams]).
  - exists 200%Z, (SampleLoad.page [SampleLoad.emea; SampleLoad.apac]
                     (JString SampleLoad.second_page)),
      [SampleLoad.emea; SampleLoad.apac], [SampleLoad.uk].
    split; [reflexivity|]. split; [reflexivity|].
    split; [exact sample_regions_listing|reflexivity].
  - exists 200%Z, (SampleLoad.page [SampleLoad.ams] JNull), [SampleLoad.ams], [].
    split; [reflexivity|]. split; [reflexivity|].
    split; [by apply (listing_end _ _ _ JNull)|reflexivity].
  - repeat constructor.
  - repeat constructor.
  - reflexivity.
  - simpl; lia.
  - simpl; lia.
Defined.

Lemma load_stops_at_bad_region_witness :
  load 1 Sample.nautobot (SampleLoad.answering_broken 200)
  = (Raise (KeyError "slug"),
     log_trace
       (listing_events Sample.nautobot "/api/dcim/regions/" NautobotRemote.region
          [] [SampleLoad.region_args "EMEA" "emea" JNull JNull 7])
       (SampleLoad.answering_broken 200)).
Proof.
  apply (load_stops_at_bad_region 1 Sample.nautobot (SampleLoad.answering_broken 200)
           [SampleLoad.emea] [SampleLoad.apac] SampleLoad.nameless).
  - exists 200%Z,
      (SampleLoad.page [SampleLoad.emea; SampleLoad.nameless; SampleLoad.apac] JNull),
      [SampleLoad.emea; SampleLoad.nameless; SampleLoad.apac], [].
    split; [reflexivity|]. split; [reflexivity|].
    split; [by apply (listing_end _ _ _ JNull)|reflexivity].
  - repeat constructor.
  - reflexivity.
  - reflexivity.
  - simpl; lia.
Defined.

Lemma load_ignores_status_witness :
  (load 2 Sample.nautobot (SampleLoad.answering 500)).1
  = (load 2 Sample.nautobot (SampleLoad.answering 200)).1.
Proof.
  apply (load_ignores_status 2 Sample.nautobot
           (SampleLoad.answering 500) (SampleLoad.answering 200)).
  split; [|split; reflexivity].
  intros r. simpl. unfold SampleLoad.remote.
  repeat (destruct (String.eqb _ _); [reflexivity|]). reflexivity.
Defined.
